(** * SRS-Filter (Shrinkwrap - Raycast - Shrinkwrap): a shallow embedding

    Embedding of [SRSFilterLogic.ApplySRSFilter] and of its local helper
    [remeshPolydata], and of [SegmentEditorEffect.onApply] and
    [SegmentEditorEffect.disableOptionsLayout], from
    [SRSFilter/SegmentEditorSRSFilterLib/SegmentEditorEffect.py].

    Conventions.
    - Python floats and numpy float64 values are binary64 numbers: the
      kernel's primitive [float], with IEEE comparisons (a comparison with a
      NaN is false) and IEEE division (0/0 is NaN, no exception in numpy).
    - A numpy 3-vector is a [vec3]; [np.linalg.norm] of a vector is the
      square root of its dot product with itself.
    - VTK filters (locators, stencils, marching cubes, subdivision, normals,
      smoothing) are not part of the repository: they are parameters of the
      sections that use them, and every theorem holds for all of them.
    - A Python exception aborts the run: computations that can raise return
      an [option] (stage functions) or a [Raised] result (pipeline). *)

From Stdlib Require Import ZArith List Bool Lia.
From Stdlib Require Import PrimFloat FloatOps SpecFloat FloatAxioms.
From stdpp Require Import base option list gmap strings.

Set Warnings "-inexact-float".
Local Open Scope Z_scope.

(** ** Numbers and vectors *)

Abbreviation float := PrimFloat.float.

Record vec3 := V3 { vx : float; vy : float; vz : float }.

(** [np.array([0.0,0.0,0.0])], [np.zeros(3)] *)
Definition vzero : vec3 := V3 0%float 0%float 0%float.

Definition vmap2 (f : float -> float -> float) (a b : vec3) : vec3 :=
  V3 (f (vx a) (vx b)) (f (vy a) (vy b)) (f (vz a) (vz b)).

Definition vadd : vec3 -> vec3 -> vec3 := vmap2 PrimFloat.add.
Definition vsub : vec3 -> vec3 -> vec3 := vmap2 PrimFloat.sub.
(** [a * k], [a / k] and [-a] on arrays are elementwise. *)
Definition vscale (a : vec3) (k : float) : vec3 :=
  V3 (vx a * k)%float (vy a * k)%float (vz a * k)%float.
Definition vdiv (a : vec3) (k : float) : vec3 :=
  V3 (vx a / k)%float (vy a / k)%float (vz a / k)%float.
Definition vneg (a : vec3) : vec3 :=
  V3 (- vx a)%float (- vy a)%float (- vz a)%float.

(** [np.dot] *)
Definition vdot (a b : vec3) : float :=
  (vx a * vx b + vy a * vy b + vz a * vz b)%float.

(** [np.linalg.norm] *)
Definition norm (a : vec3) : float := PrimFloat.sqrt (vdot a a).

Definition vhas_nan (a : vec3) : bool :=
  PrimFloat.is_nan (vx a) || PrimFloat.is_nan (vy a) || PrimFloat.is_nan (vz a).

(** Python's [x > y] on floats. *)
Definition fgt (x y : float) : bool := (y <? x)%float.

(** [max(l)] of a non-empty list of floats: the first element is kept until
    a strictly larger one is met; [max([])] raises [ValueError]. *)
Definition py_max (l : list float) : option float :=
  match l with
  | [] => None
  | x :: rest => Some (fold_left (fun m y => if fgt y m then y else m) rest x)
  end.

(** [math.ceil] of a float, read off its sign, mantissa and exponent;
    it raises on infinities and NaN. *)
Definition ceil_SF (f : spec_float) : option Z :=
  match f with
  | S754_zero _ => Some 0
  | S754_finite s m e =>
      let v := if s then Z.neg m else Z.pos m in
      Some (if 0 <=? e then v * 2 ^ e else - ((- v) / 2 ^ (- e)))
  | S754_infinity _ => None
  | S754_nan => None
  end.

Definition math_ceil (x : float) : option Z := ceil_SF (Prim2SF x).

(** ** Poly data

    A [vtkPolyData] as far as the filter reads and writes it: the point
    coordinates, the cells (VTK cell type and point ids), and the point and
    cell arrays named Normals when a normals filter has produced them. *)

Record Cell := mkCell { cellType : Z; pointIds : list nat }.

(** [VTK_TRIANGLE] *)
Definition VTK_TRIANGLE : Z := 5.
Definition triangle (a b c : nat) : Cell := mkCell VTK_TRIANGLE [a; b; c].

Record PolyData := mkPolyData {
  Points : list vec3;
  Cells : list Cell;
  PointNormals : list vec3;
  CellNormals : list vec3
}.

Definition emptyPolyData : PolyData := mkPolyData [] [] [] [].

Definition GetNumberOfPoints (pd : PolyData) : nat := length (Points pd).
Definition GetNumberOfCells (pd : PolyData) : nat := length (Cells pd).

(** [GetPoint(i)]; ids stored in cells are valid point ids, the default is
    never read on a well-formed mesh. *)
Definition GetPoint (pts : list vec3) (i : nat) : vec3 := default vzero (pts !! i).

(** [cell.GetPoints()]: the coordinates of the cell's points, in cell order. *)
Definition cellPoints (pts : list vec3) (c : Cell) : list vec3 :=
  map (GetPoint pts) (pointIds c).

(** [points.SetPoint(i, x)] *)
Definition SetPoint (pts : list vec3) (i : nat) (x : vec3) : list vec3 := <[i := x]> pts.

Definition withPoints (pd : PolyData) (pts : list vec3) : PolyData :=
  mkPolyData pts (Cells pd) (PointNormals pd) (CellNormals pd).

Definition withCells (pd : PolyData) (cs : list Cell) (cn : list vec3) : PolyData :=
  mkPolyData (Points pd) cs (PointNormals pd) cn.

(** [GetPointCells(i, cellIds)]: the ids of the cells that use point [i], in
    increasing order. *)
Definition usesPoint (i : nat) (c : Cell) : bool := existsb (Nat.eqb i) (pointIds c).

Definition GetPointCells (cells : list Cell) (i : nat) : list nat :=
  List.filter (fun c => match cells !! c with Some cl => usesPoint i cl | None => false end)
              (seq 0 (length cells)).

(** [DeleteCell] marks a cell, [RemoveDeletedCells] drops the marked cells
    (and their cell data) and keeps the others in their order. *)
Definition filter_idx {A : Type} (keep : nat -> bool) (l : list A) : list A :=
  map snd (List.filter (fun p => keep (fst p)) (combine (seq 0 (length l)) l)).

Definition DeleteCell (deleted : gset nat) (c : nat) : gset nat := {[ c ]} ∪ deleted.

Definition RemoveDeletedCells (pd : PolyData) (deleted : gset nat) : PolyData :=
  let keep := fun c => negb (bool_decide (c ∈ deleted)) in
  withCells pd (filter_idx keep (Cells pd)) (filter_idx keep (CellNormals pd)).

(** ** The VTK operations the filter calls

    Each field stands for the VTK objects configured as in the source lines
    named with it; the filter only sees their inputs and outputs. *)

Class VTK := {
  (** [polydata.GetBounds(bounds)]: xmin, xmax, ymin, ymax, zmin, zmax *)
  GetBounds : PolyData -> list float;
  (** lines 425-458: polydata stencil of the white image, the two image
      stencils, discrete marching cubes and the reversed sense; arguments are
      the mesh, origin, spacing and whole extent of the image *)
  stencilSurface : PolyData -> list float -> list float -> list Z -> PolyData;
  (** lines 494-512: the cleaned sphere source around the bounds of the input *)
  enclosingSphere : PolyData -> PolyData;
  (** [cellLocator.FindClosestPoint] on a locator built over the data set *)
  FindClosestPoint : PolyData -> vec3 -> vec3;
  (** [cellLocator.IntersectWithLine(a0, a1, tol, ..., glo, ...)]: the content
      of the buffer [glo] after the call; it is created as zeros by the caller *)
  IntersectWithLine : PolyData -> vec3 -> vec3 -> float -> vec3;
  (** lines 616-626: adaptive subdivision to a maximum edge length, cleaned *)
  adaptiveSubdivisionClean : PolyData -> float -> PolyData;
  (** [vtkImplicitPolyDataDistance.EvaluateFunction] with the given input *)
  EvaluateFunction : PolyData -> vec3 -> float;
  (** lines 650-657: unsplit point normals *)
  pointNormalsFilter : PolyData -> PolyData;
  (** lines 768-771: [vtkSmoothPolyDataFilter] with a source (input 1) *)
  smoothPolyDataFilter : PolyData -> PolyData -> PolyData;
  (** lines 462-472: the windowed sinc smoother of [smoothPolydata] *)
  windowedSinc : PolyData -> PolyData;
  (** lines 840-849: clean, then cell normals without splitting *)
  cleanCellNormals : PolyData -> PolyData;
  (** lines 856-863: boundary edges only *)
  featureEdges : PolyData -> PolyData;
  (** [mergePoints.IsInsertedPoint] over the given points: an id, or -1 *)
  IsInsertedPoint : list vec3 -> vec3 -> Z;
  (** lines 953-955 *)
  triangleFilter : PolyData -> PolyData
}.

(** ** Options: lines 335-353 and 975-998 *)

Definition OUTPUT_MODEL : string := "MODEL".
Definition OUTPUT_SEGMENTATION : string := "SEGMENTATION".
Definition MODE_CONVEXHULL : string := "CONVEXHULL".
Definition MODE_RAYCASTS : string := "RAYCASTS".
Definition MODE_DEEPHULL : string := "DEEPHULL".
Definition MODE_NONMANIFOLD : string := "NONMANIFOLD".
Definition MODE_SOLIDIFIED : string := "SOLIDIFIED".

(** The values of the [options] dictionary; the two iteration counts are
    the integers [int(options[...])] the loops use. *)
Record Options := mkOptions {
  outputType : string;
  filterMode : string;
  offsetFirstShrinkwrap : float;
  spacingFirstRemesh : float;
  spacingSecondRemesh : float;
  iterationsFirstShrinkwrap : Z;
  iterationsSecondShrinkwrap : Z;
  raycastSearchEdgeLength : float;
  raycastOutputEdgeLength : float;
  raycastMaxHitDistance : float;
  raycastMaxLength : float;
  raycastMinLength : float;
  maxModelDistance : float;
  solidificationThickness : float;
  smoothingFactor : float
}.

(** The keyword arguments of a call: each key given or not. *)
Record Kwargs := mkKwargs {
  kw_outputType : option string;
  kw_filterMode : option string;
  kw_offsetFirstShrinkwrap : option float;
  kw_spacingFirstRemesh : option float;
  kw_spacingSecondRemesh : option float;
  kw_iterationsFirstShrinkwrap : option Z;
  kw_iterationsSecondShrinkwrap : option Z;
  kw_raycastSearchEdgeLength : option float;
  kw_raycastOutputEdgeLength : option float;
  kw_raycastMaxHitDistance : option float;
  kw_raycastMaxLength : option float;
  kw_raycastMinLength : option float;
  kw_maxModelDistance : option float;
  kw_solidificationThickness : option float;
  kw_smoothingFactor : option float
}.

Definition no_kwargs : Kwargs :=
  mkKwargs None None None None None None None None None None None None None None None.

(** [options = {...}; options.update(kwargs)]: no value is checked here. *)
Definition make_options (kw : Kwargs) : Options := {|
  outputType := default OUTPUT_MODEL (kw_outputType kw);
  filterMode := default MODE_SOLIDIFIED (kw_filterMode kw);
  offsetFirstShrinkwrap := default 15%float (kw_offsetFirstShrinkwrap kw);
  spacingFirstRemesh := default 10%float (kw_spacingFirstRemesh kw);
  spacingSecondRemesh := default 1%float (kw_spacingSecondRemesh kw);
  iterationsFirstShrinkwrap := default 3 (kw_iterationsFirstShrinkwrap kw);
  iterationsSecondShrinkwrap := default 5 (kw_iterationsSecondShrinkwrap kw);
  raycastSearchEdgeLength := default 20%float (kw_raycastSearchEdgeLength kw);
  raycastOutputEdgeLength := default 2%float (kw_raycastOutputEdgeLength kw);
  raycastMaxHitDistance := default 2%float (kw_raycastMaxHitDistance kw);
  raycastMaxLength := default 100%float (kw_raycastMaxLength kw);
  raycastMinLength := default 0%float (kw_raycastMinLength kw);
  maxModelDistance := default 0.7%float (kw_maxModelDistance kw);
  solidificationThickness := default 1.5%float (kw_solidificationThickness kw);
  smoothingFactor := default 0.2%float (kw_smoothingFactor kw)
|}.

(** ** remeshPolydata: lines 400-458 *)

(** A [vtkImageData] as far as [remeshPolydata] sets it up. Its extent is
    xmin, xmax, ymin, ymax, zmin, zmax in voxel indices, both ends included. *)
Record ImageData := mkImageData {
  imgSpacing : list float;
  imgExtent : list Z;
  imgOrigin : list float
}.

Definition newImageData : ImageData := mkImageData [] [0; -1; 0; -1; 0; -1] [].

Definition SetSpacing (img : ImageData) (s : list float) : ImageData :=
  mkImageData s (imgExtent img) (imgOrigin img).
Definition SetOrigin (img : ImageData) (o : list float) : ImageData :=
  mkImageData (imgSpacing img) (imgExtent img) o.
Definition SetExtent (img : ImageData) (e : list Z) : ImageData :=
  mkImageData (imgSpacing img) e (imgOrigin img).
(** [vtkImageData::SetDimensions(i, j, k)] is [SetExtent(0, i-1, 0, j-1, 0, k-1)]. *)
Definition SetDimensions (img : ImageData) (dim : list Z) : ImageData :=
  SetExtent img [0; nth 0 dim 0 - 1; 0; nth 1 dim 0 - 1; 0; nth 2 dim 0 - 1].

(** Lines 410-412 for one axis; the float division raises on a zero spacing. *)
Definition remesh_dim (bounds spacing : list float) (i : nat) : option Z :=
  let s := nth i spacing 0%float in
  if (s =? 0)%float then None
  else
    c ← math_ceil ((nth (i * 2 + 1) bounds 0 - nth (i * 2) bounds 0) / s)%float;
    let dim := c + 1 in
    Some (if dim <? 1 then 1 else dim).

(** Lines 408-412 *)
Definition remesh_dims (bounds spacing : list float) : option (list Z) :=
  d0 ← remesh_dim bounds spacing 0;
  d1 ← remesh_dim bounds spacing 1;
  d2 ← remesh_dim bounds spacing 2;
  Some [d0; d1; d2].

(** Lines 401-423: the white image whose scalars are allocated. *)
Definition remeshImage (bounds spacing : list float) : option ImageData :=
  let whiteImage := SetSpacing newImageData spacing in
  dim ← remesh_dims bounds spacing;
  let whiteImage := SetDimensions whiteImage dim in
  let whiteImage := SetExtent whiteImage [0; nth 0 dim 0; 0; nth 1 dim 0; 0; nth 2 dim 0] in
  let origin := [nth 0 bounds 0%float; nth 2 bounds 0%float; nth 4 bounds 0%float] in
  Some (SetOrigin whiteImage origin).

Definition remeshPolydata `{VTK} (polydata : PolyData) (spacing : list float) : option PolyData :=
  whiteImage ← remeshImage (GetBounds polydata) spacing;
  Some (stencilSurface polydata (imgOrigin whiteImage) spacing (imgExtent whiteImage)).

(** ** First shrinkwrap pass, one iteration: lines 531-553 *)

(** Lines 543-549 for one point. The second component lists the divisors of
    the divisions the statement executes (none on the [else] branch). *)
Definition newLocation (offset : float) (closestPoint originPoint : vec3) : vec3 * list float :=
  let vector := vsub closestPoint originPoint in
  let vectorLength := norm vector in
  if fgt offset 0 && fgt vectorLength 0.01
  then (vsub closestPoint (vscale (vdiv vector vectorLength) offset), [vectorLength])
  else (closestPoint, []).

(** Lines 533-551: the loop over the point ids; [closest] is the locator
    query. The state is the point array and the divisors used so far. *)
Definition shrinkwrapStep (closest : vec3 -> vec3) (offset : float)
    (st : list vec3 * list float) (i : nat) : list vec3 * list float :=
  let originPoint := GetPoint (fst st) i in
  let closestPoint := closest originPoint in
  let r := newLocation offset closestPoint originPoint in
  (SetPoint (fst st) i (fst r), snd st ++ snd r).

Definition shrinkwrapPoints (closest : vec3 -> vec3) (offset : float)
    (points : list vec3) : list vec3 * list float :=
  fold_left (shrinkwrapStep closest offset) (seq 0 (length points)) (points, []).

Definition shrinkwrap `{VTK} (inputPolyData : PolyData) (offset : float)
    (shrinkModelPD : PolyData) : PolyData :=
  withPoints shrinkModelPD
    (fst (shrinkwrapPoints (FindClosestPoint inputPolyData) offset (Points shrinkModelPD))).

(** ** Raycast stage: lines 585-732 *)

(** Lines 595-598: the lengths of the edges between consecutive points. *)
Definition edgeLength (pointsArray : list vec3) : list float :=
  map (fun pa => norm (vsub (GetPoint pointsArray pa) (GetPoint pointsArray (pa + 1))))
      (seq 0 (length pointsArray - 1)).

(** Line 600; [max] raises on a cell with fewer than two points. *)
Definition isLargeCell (searchEdgeLength : float) (pts : list vec3) (c : Cell) : option bool :=
  m ← py_max (edgeLength (cellPoints pts c));
  Some (fgt m searchEdgeLength).

(** Lines 586-601 *)
Fixpoint largeCellsFrom (searchEdgeLength : float) (pts : list vec3)
    (cells : list Cell) (i : nat) : option (list nat) :=
  match cells with
  | [] => Some []
  | c :: rest =>
      b ← isLargeCell searchEdgeLength pts c;
      ids ← largeCellsFrom searchEdgeLength pts rest (S i);
      Some (if b : bool then i :: ids else ids)
  end.

Definition findLargeCells (searchEdgeLength : float) (pd : PolyData) : option (list nat) :=
  largeCellsFrom searchEdgeLength (Points pd) (Cells pd) 0.

(** Lines 605-613: the copy that keeps the large cells only. *)
Definition extractLargeCells (pd : PolyData) (largeCellIds : list nat) : PolyData :=
  let deleted :=
    fold_left (fun (d : gset nat) (c : nat) =>
                 if bool_decide (c ∈ largeCellIds) then d else DeleteCell d c)
              (seq 0 (GetNumberOfCells pd)) (∅ : gset nat) in
  RemoveDeletedCells pd deleted.

(** Lines 585-628, up to the cancellation check: the large cell ids, the
    large cells and the subdivided, cleaned working mesh. *)
Definition raycastPrepare `{VTK} (opts : Options) (shrinkModelPD : PolyData)
    : option (list nat * PolyData * PolyData) :=
  largeCellIds ← findLargeCells (raycastSearchEdgeLength opts) shrinkModelPD;
  Some (largeCellIds,
        extractLargeCells shrinkModelPD largeCellIds,
        adaptiveSubdivisionClean shrinkModelPD (raycastOutputEdgeLength opts)).

(** Lines 640-646 *)
Definition findLargePoints `{VTK} (largeCellsPolyData : PolyData) (pts : list vec3) : gset nat :=
  fold_left (fun (s : gset nat) (p : nat) =>
               if (PrimFloat.abs (EvaluateFunction largeCellsPolyData (GetPoint pts p)) <? 1)%float
               then {[ p ]} ∪ s else s)
            (seq 0 (length pts)) (∅ : gset nat).

(** An entry of [vert_location_dict]: result, new location, ray length. *)
Record Hit := mkHit { hit_res : bool; hit_loc : vec3; hit_length : float }.

(** Line 676 *)
Definition noHit : Hit := mkHit false vzero 0%float.

(** Lines 679-704 for the point [pointId] at coordinates [a0]. *)
Definition castRay `{VTK} (inputPolyData : PolyData) (maxLength : float)
    (normals : list vec3) (pointId : nat) (a0 : vec3) : Hit :=
  let normal := vscale (GetPoint normals pointId) (-1)%float in
  let vector := vscale normal maxLength in
  let a1 := vadd a0 vector in
  let glo := IntersectWithLine inputPolyData a0 a1 1%float in
  let length := norm (vsub glo a0) in
  let res := negb (norm glo =? 0)%float in
  mkHit res glo length.

(** Lines 669-704: the points of one triangle. *)
Definition projectPoint `{VTK} (inputPolyData : PolyData) (maxLength : float)
    (largePointIds : gset nat) (pd : PolyData)
    (dict : gmap nat Hit) (pointId : nat) : gmap nat Hit :=
  if negb (bool_decide (pointId ∈ largePointIds))
     || match dict !! pointId with Some h => negb (hit_res h) | None => false end
  then <[pointId := noHit]> dict
  else <[pointId := castRay inputPolyData maxLength (PointNormals pd) pointId
                            (GetPoint (Points pd) pointId)]> dict.

(** Lines 662-704 *)
Definition projectCell `{VTK} (inputPolyData : PolyData) (maxLength : float)
    (largePointIds : gset nat) (pd : PolyData)
    (dict : gmap nat Hit) (c : Cell) : gmap nat Hit :=
  if cellType c =? VTK_TRIANGLE
  then fold_left (projectPoint inputPolyData maxLength largePointIds pd) (pointIds c) dict
  else dict.

Definition projection `{VTK} (inputPolyData : PolyData) (maxLength : float)
    (largePointIds : gset nat) (pd : PolyData) : gmap nat Hit :=
  fold_left (projectCell inputPolyData maxLength largePointIds pd) (Cells pd) ∅.

(** Lines 723-732: the loop over the points of one cell around point [i];
    the result is [pointChanged]. A missing key raises [KeyError]. *)
Fixpoint scanCellPoints (dict : gmap nat Hit) (maxHitDistance : float)
    (i : nat) (loc_i : vec3) (ids : list nat) : option bool :=
  match ids with
  | [] => Some false
  | pointId :: rest =>
      if negb (pointId =? i)%nat then
        h ← dict !! pointId;
        if hit_res h && (norm (vadd (vneg loc_i) (hit_loc h)) <? maxHitDistance)%float
        then Some true
        else scanCellPoints dict maxHitDistance i loc_i rest
      else scanCellPoints dict maxHitDistance i loc_i rest
  end.

(** Lines 718-732: the loop over the cells that use point [i]. *)
Fixpoint scanCells (dict : gmap nat Hit) (maxHitDistance : float) (cells : list Cell)
    (i : nat) (loc_i : vec3) (cellIds : list nat) : option bool :=
  match cellIds with
  | [] => Some false
  | c :: rest =>
      pointChanged ← scanCellPoints dict maxHitDistance i loc_i
                       (pointIds (default (mkCell 0 []) (cells !! c)));
      if pointChanged : bool then Some true
      else scanCells dict maxHitDistance cells i loc_i rest
  end.

(** Lines 708-732 for one point id. *)
Definition acceptHit (dict : gmap nat Hit) (minLength maxHitDistance : float)
    (cells : list Cell) (pts : list vec3) (i : nat) : option (list vec3) :=
  h ← dict !! i;
  if hit_res h && fgt (hit_length h) minLength then
    pointChanged ← scanCells dict maxHitDistance cells i (hit_loc h) (GetPointCells cells i);
    Some (if pointChanged : bool then SetPoint pts i (hit_loc h) else pts)
  else Some pts.

(** Lines 706-732 *)
Definition acceptHits (dict : gmap nat Hit) (minLength maxHitDistance : float)
    (cells : list Cell) (pts : list vec3) : option (list vec3) :=
  foldl (fun acc i => pts' ← acc; acceptHit dict minLength maxHitDistance cells pts' i)
        (Some pts) (seq 0 (length pts)).

(** Lines 634-732: what follows the cancellation check of the stage. *)
Definition raycastProject `{VTK} (opts : Options) (inputPolyData : PolyData)
    (largeCellIds : list nat) (largeCellsPolyData : PolyData)
    (shrinkModelPD : PolyData) : option PolyData :=
  if (0 <? length largeCellIds)%nat && fgt (raycastMaxLength opts) 0 then
    let largePointIds := findLargePoints largeCellsPolyData (Points shrinkModelPD) in
    let shrinkModelPD := pointNormalsFilter shrinkModelPD in
    let vert_location_dict :=
      projection inputPolyData (raycastMaxLength opts) largePointIds shrinkModelPD in
    pts ← acceptHits vert_location_dict (raycastMinLength opts) (raycastMaxHitDistance opts)
                     (Cells shrinkModelPD) (Points shrinkModelPD);
    Some (withPoints shrinkModelPD pts)
  else Some shrinkModelPD.

(** ** Cap removal: lines 796-817 *)

(** Lines 808-814: the loop over the points of one cell; the result tells
    whether [DeleteCell] was reached (the loop then breaks). *)
Fixpoint capScan (distance : vec3 -> float) (maxModelDistance : float)
    (points : list vec3) : bool :=
  match points with
  | [] => false
  | point :: rest =>
      if fgt (PrimFloat.abs (distance point)) maxModelDistance then true
      else capScan distance maxModelDistance rest
  end.

(** Lines 805-814: the cells marked as deleted. *)
Definition capMarks (distance : vec3 -> float) (maxModelDistance : float)
    (pd : PolyData) : gset nat :=
  fold_left (fun (d : gset nat) (c : nat) =>
               let cell := default (mkCell 0 []) (Cells pd !! c) in
               if capScan distance maxModelDistance (cellPoints (Points pd) cell)
               then DeleteCell d c else d)
            (seq 0 (GetNumberOfCells pd)) (∅ : gset nat).

Definition removeCaps `{VTK} (inputPolyData : PolyData) (maxModelDistance : float)
    (shrinkModelPD : PolyData) : PolyData :=
  let nonsolidPolyData := shrinkModelPD in
  RemoveDeletedCells nonsolidPolyData
    (capMarks (EvaluateFunction inputPolyData) maxModelDistance nonsolidPolyData).

(** ** Solidification: lines 839-955 *)

(** Lines 876-882: the negated normals of the cells around a point. *)
Definition incidentNormals (pd : PolyData) (pointID : nat) : list vec3 :=
  map (fun c => vscale (GetPoint (CellNormals pd) c) (-1)%float)
      (GetPointCells (Cells pd) pointID).

(** Lines 885-893: the new vertex from the negated normals around a point;
    [normalsArray[0]] raises [IndexError] on an empty list. *)
Definition offsetVertex (thickness : float) (point : vec3) (normalsArray : list vec3)
    : option vec3 :=
  let dir_vec := fold_left vadd normalsArray vzero in
  let dir_vec_norm := vdiv dir_vec (norm dir_vec) in
  n0 ← head normalsArray;
  let proj_length := vdot dir_vec_norm n0 in
  let dir_vec_finallenght := vscale dir_vec_norm proj_length in
  Some (vadd point (vscale dir_vec_finallenght thickness)).

(** Lines 869-896 *)
Definition addingPoints (thickness : float) (pd : PolyData) : option (list vec3) :=
  mapM (fun pointID =>
          offsetVertex thickness (GetPoint (Points pd) pointID) (incidentNormals pd pointID))
       (seq 0 (GetNumberOfPoints pd)).

(** A cell inserted into a [vtkCellArray] of polygons. *)
Definition polyCell (ids : list nat) : Cell :=
  mkCell (match length ids with 3%nat => 5 | 4%nat => 9 | _ => 7 end) ids.

(** Lines 898-906 *)
Definition addingPolys (pd : PolyData) : list Cell :=
  map (fun c => polyCell (map (fun i => (i + GetNumberOfPoints pd)%nat) (rev (pointIds c))))
      (Cells pd).

(** [GetPolys()]: the triangles, polygons and quads of the mesh. *)
Definition GetPolys (pd : PolyData) : list Cell :=
  List.filter (fun c => (cellType c =? 5) || (cellType c =? 7) || (cellType c =? 9)) (Cells pd).

(** Lines 934-947 for one boundary edge. *)
Definition edgeQuad `{VTK} (doublePoints : list vec3) (numberOfPoints : nat)
    (edges : PolyData) (e : Cell) : list Cell :=
  match pointIds e with
  | [p0; p1] =>
      let m0 := IsInsertedPoint doublePoints (GetPoint (Points edges) p0) in
      let m1 := IsInsertedPoint doublePoints (GetPoint (Points edges) p1) in
      if (m0 =? -1) || (m1 =? -1) then []
      else [polyCell [Z.to_nat m1; Z.to_nat m0;
                      Z.to_nat (m0 + Z.of_nat numberOfPoints);
                      Z.to_nat (m1 + Z.of_nat numberOfPoints)]]
  | _ => []
  end.

Definition solidify `{VTK} (thickness : float) (shrinkModelPD : PolyData) : option PolyData :=
  let shrinkModelPD := cleanCellNormals shrinkModelPD in
  let numberOfPoints := GetNumberOfPoints shrinkModelPD in
  let edges := featureEdges shrinkModelPD in
  newPoints ← addingPoints thickness shrinkModelPD;
  let doubleSurfacePoints := Points shrinkModelPD ++ newPoints in
  let doubleSurfacePolys := GetPolys shrinkModelPD ++ addingPolys shrinkModelPD in
  let manifoldPolys :=
    doubleSurfacePolys
      ++ concat (map (edgeQuad doubleSurfacePoints numberOfPoints edges) (Cells edges)) in
  Some (triangleFilter (mkPolyData doubleSurfacePoints manifoldPolys [] [])).

(** ** The run: ApplySRSFilter, lines 304-972 *)

(** Messages given to [logCallback]; [MsgNone] is the empty text of [cleanup]. *)
Inductive Msg :=
  | MsgStarted
  | MsgShrinkwrapping (x n : Z)
  | MsgRemeshing (x n : Z)
  | MsgRaycasting
  | MsgRemovingCaps
  | MsgSolidifying
  | MsgCreatingModel
  | MsgUpdatingSegmentation
  | MsgNone.

(** Messages given to [logging.error]. *)
Inductive Err :=
  | ErrUnknownOutputType
  | ErrSegmentationNotPossible
  | ErrUnknownFilterMode.

(** Calls that change the segmentation node or its segment. *)
Inductive NodeOp :=
  | SetConversionParameter (smoothing : float)
  | RemoveClosedSurfaceRepresentation
  | CreateClosedSurfaceRepresentation
  | Modified
  | UpdateScene
  | SegmentDeepCopy (closedSurface : PolyData).

Inductive Stage :=
  | FirstShrinkwrap
  | Remesh
  | Subdivide
  | Raycast
  | SecondShrinkwrap
  | Smoothing
  | RemoveCaps
  | Solidification.

(** What a run does to its surroundings, in order. [EvStage s pd] marks that
    the geometry of stage [s] was computed, at a time when the object
    [inputPolyData] held the mesh [pd]. *)
Inductive Event :=
  | EvLog (m : Msg)
  | EvError (e : Err)
  | EvNode (op : NodeOp)
  | EvStage (s : Stage) (inputPolyData : PolyData)
  | EvAddModel (polydata : PolyData).

(** The [vtkPolyData] objects by identity, the flag [self.cancelRequested],
    the number of [logCallback] calls made so far, and the events so far. *)
Record World := mkWorld {
  heap : gmap nat PolyData;
  cancelRequested : bool;
  ticks : nat;
  trace : list Event
}.

(** The [return] statements of the function: [return False] after [cleanup]
    on a cancellation check, [return False] after [logging.error], and
    [return True]. *)
Inductive Exit := ExitCancelled | ExitFailed | ExitDone.

(** The value the caller receives. *)
Definition retval (e : Exit) : bool :=
  match e with
  | ExitCancelled => false
  | ExitFailed => false
  | ExitDone => true
  end.

(** A statement either goes on with a value, returns from the function, or
    raises an exception. *)
Inductive Res (A : Type) :=
  | Continue (a : A)
  | Return (e : Exit)
  | Raised.
Arguments Continue {A} a.
Arguments Return {A} e.
Arguments Raised {A}.

Definition M (A : Type) : Type := World -> Res A * World.

#[export] Instance M_ret : MRet M := fun A a w => (Continue a, w).
#[export] Instance M_bind : MBind M := fun A B f m w =>
  match m w with
  | (Continue a, w') => f a w'
  | (Return e, w') => (Return e, w')
  | (Raised, w') => (Raised, w')
  end.

Definition exit {A : Type} (e : Exit) : M A := fun w => (Return e, w).

Definition lift {A : Type} (o : option A) : M A := fun w =>
  match o with
  | Some a => (Continue a, w)
  | None => (Raised, w)
  end.

Definition emit (e : Event) : M unit := fun w =>
  (Continue tt, mkWorld (heap w) (cancelRequested w) (ticks w) (trace w ++ [e])).

(** [vtk.vtkPolyData()] and other new objects: a fresh identity. *)
Definition alloc (pd : PolyData) : M nat := fun w =>
  let l := fresh (dom (heap w)) in
  (Continue l, mkWorld (<[l := pd]> (heap w)) (cancelRequested w) (ticks w) (trace w)).

Definition load (l : nat) : M PolyData := fun w =>
  (Continue (default emptyPolyData (heap w !! l)), w).

(** [obj.DeepCopy(pd)] and the in-place updates of the object [l]. *)
Definition store (l : nat) (pd : PolyData) : M unit := fun w =>
  (Continue tt, mkWorld (<[l := pd]> (heap w)) (cancelRequested w) (ticks w) (trace w)).

Definition getCancelRequested : M bool := fun w => (Continue (cancelRequested w), w).

Definition setCancelRequested (b : bool) : M unit := fun w =>
  (Continue tt, mkWorld (heap w) b (ticks w) (trace w)).

Section Run.

(** The VTK operations; [cancelDuring k] tells whether the user presses
    Cancel while the call number [k] of the log callback processes the
    events of the application ([requestCancel] then sets the flag);
    [hasDisplayNode] is [segmentationNode.GetDisplayNode()]; [inputSurface]
    is the closed surface the segmentation node creates for the segment. *)
Context `{VTK}.
Variable cancelDuring : nat -> bool.
Variable hasDisplayNode : bool.
Variable inputSurface : PolyData.

(** [if self.logCallback: self.logCallback(text)]: the callback of lines
    287-289 shows the text and lets the application process its events.
    The event records that the statement is reached; without a callback no
    request can arrive, which is [cancelDuring] being false everywhere. *)
Definition logCallback (m : Msg) : M unit := fun w =>
  (Continue tt,
   mkWorld (heap w) (cancelRequested w || cancelDuring (ticks w)) (S (ticks w))
           (trace w ++ [EvLog m])).

(** Lines 397-398 *)
Definition cleanup : M unit := logCallback MsgNone.

(** [if self.cancelRequested: cleanup(); return False] *)
Definition checkCancel : M unit :=
  c ← getCancelRequested;
  if c : bool then cleanup ;; exit ExitCancelled else mret tt.

(** Lines 460-474; the pass band computed on line 461 is not given to the
    filter. *)
Definition smoothPolydata (polydata : PolyData) : PolyData := windowedSinc polydata.

(** Lines 355-371 *)
Definition polydataToModel (polydata : nat) (smooth : bool) : M bool :=
  c ← getCancelRequested;
  if c : bool then cleanup ;; mret false
  else
    logCallback MsgCreatingModel ;;
    pd ← load polydata;
    let pd := if smooth then smoothPolydata pd else pd in
    emit (EvAddModel pd) ;;
    mret true.

(** Lines 373-395 *)
Definition polydataToSegment (polydata : nat) (smooth : bool) : M bool :=
  c ← getCancelRequested;
  if c : bool then cleanup ;; mret false
  else
    logCallback MsgUpdatingSegmentation ;;
    pd ← load polydata;
    let pd := if smooth then smoothPolydata pd else pd in
    emit (EvNode (SegmentDeepCopy pd)) ;;
    emit (EvNode Modified) ;;
    emit (EvNode RemoveClosedSurfaceRepresentation) ;;
    emit (EvNode CreateClosedSurfaceRepresentation) ;;
    (if hasDisplayNode then emit (EvNode UpdateScene) else mret tt) ;;
    mret true.

(** The dispatch of lines 565-575, 734-744, 776-786 and 959-969. *)
Definition dispatch (opts : Options) (polydata : nat) : M unit :=
  (if String.eqb (outputType opts) OUTPUT_SEGMENTATION then
     polydataToSegment polydata false ;; mret tt
   else if String.eqb (outputType opts) OUTPUT_MODEL then
     polydataToModel polydata false ;; mret tt
   else
     emit (EvError ErrUnknownOutputType) ;; exit ExitFailed) ;;
  cleanup ;;
  exit ExitDone.

(** The dispatch of lines 819-829. *)
Definition dispatchNonmanifold (opts : Options) (polydata : nat) : M unit :=
  (if String.eqb (outputType opts) OUTPUT_SEGMENTATION then
     emit (EvError ErrSegmentationNotPossible)
   else if String.eqb (outputType opts) OUTPUT_MODEL then
     polydataToModel polydata false ;; mret tt
   else
     emit (EvError ErrUnknownOutputType) ;; exit ExitFailed) ;;
  cleanup ;;
  exit ExitDone.

(** A stage: read the working mesh and the input, compute, write the
    working mesh back. *)
Definition runStage (s : Stage) (inputPolyData shrinkModelPD : nat)
    (f : PolyData -> PolyData -> option PolyData) : M unit :=
  inp ← load inputPolyData;
  work ← load shrinkModelPD;
  new ← lift (f inp work);
  emit (EvStage s inp) ;;
  store shrinkModelPD new.

(** Lines 522-563: the iterations [xs] that remain of [range(n)]. *)
Fixpoint firstPass (opts : Options) (inputPolyData shrinkModelPD : nat)
    (xs : list nat) : M unit :=
  match xs with
  | [] => mret tt
  | x :: rest =>
      checkCancel ;;
      logCallback (MsgShrinkwrapping (Z.of_nat x + 1) (iterationsFirstShrinkwrap opts)) ;;
      runStage FirstShrinkwrap inputPolyData shrinkModelPD
        (fun inp work => Some (shrinkwrap inp (offsetFirstShrinkwrap opts) work)) ;;
      if Z.of_nat x =? iterationsFirstShrinkwrap opts - 1 then mret tt
      else
        checkCancel ;;
        logCallback (MsgRemeshing (Z.of_nat x + 1) (iterationsSecondShrinkwrap opts)) ;;
        runStage Remesh inputPolyData shrinkModelPD
          (fun _ work => remeshPolydata work (replicate 3 (spacingFirstRemesh opts))) ;;
        firstPass opts inputPolyData shrinkModelPD rest
  end.

(** Lines 750-772 *)
Fixpoint secondPass (opts : Options) (inputPolyData shrinkModelPD : nat)
    (xs : list nat) : M unit :=
  match xs with
  | [] => mret tt
  | x :: rest =>
      checkCancel ;;
      logCallback (MsgRemeshing (Z.of_nat x + 1) (iterationsSecondShrinkwrap opts + 1)) ;;
      runStage Remesh inputPolyData shrinkModelPD
        (fun _ work => remeshPolydata work (replicate 3 (spacingSecondRemesh opts))) ;;
      if Z.of_nat x =? iterationsSecondShrinkwrap opts then mret tt
      else
        checkCancel ;;
        logCallback (MsgShrinkwrapping (Z.of_nat x + 1) (iterationsSecondShrinkwrap opts)) ;;
        runStage SecondShrinkwrap inputPolyData shrinkModelPD
          (fun inp work => Some (smoothPolyDataFilter work inp)) ;;
        secondPass opts inputPolyData shrinkModelPD rest
  end.

(** Lines 579-732 *)
Definition raycastStage (opts : Options) (inputPolyData shrinkModelPD : nat) : M unit :=
  checkCancel ;;
  logCallback MsgRaycasting ;;
  inp ← load inputPolyData;
  work ← load shrinkModelPD;
  prep ← lift (raycastPrepare opts work);
  largeCellsPolyData ← alloc (snd (fst prep));
  emit (EvStage Subdivide inp) ;;
  store shrinkModelPD (snd prep) ;;
  checkCancel ;;
  large ← load largeCellsPolyData;
  runStage Raycast inputPolyData shrinkModelPD
    (fun inp work => raycastProject opts inp (fst (fst prep)) large work).

(** Lines 790-817 *)
Definition capStage (opts : Options) (inputPolyData shrinkModelPD : nat) : M unit :=
  checkCancel ;;
  logCallback MsgRemovingCaps ;;
  work ← load shrinkModelPD;
  nonsolidPolyData ← alloc work;
  inp ← load inputPolyData;
  nonsolid ← load nonsolidPolyData;
  emit (EvStage RemoveCaps inp) ;;
  store nonsolidPolyData (removeCaps inp (maxModelDistance opts) nonsolid) ;;
  new ← load nonsolidPolyData;
  store shrinkModelPD new.

(** Lines 833-955; the result is the output of the triangle filter. *)
Definition solidifyStage (opts : Options) (inputPolyData shrinkModelPD : nat) : M nat :=
  checkCancel ;;
  logCallback MsgSolidifying ;;
  inp ← load inputPolyData;
  work ← load shrinkModelPD;
  store shrinkModelPD (cleanCellNormals work) ;;
  solid ← lift (solidify (solidificationThickness opts) work);
  emit (EvStage Solidification inp) ;;
  alloc solid.

(** Lines 477-490 *)
Definition prepareNode (opts : Options) : M nat :=
  emit (EvNode (SetConversionParameter (smoothingFactor opts))) ;;
  emit (EvNode RemoveClosedSurfaceRepresentation) ;;
  emit (EvNode CreateClosedSurfaceRepresentation) ;;
  emit (EvNode Modified) ;;
  (if hasDisplayNode then emit (EvNode UpdateScene) else mret tt) ;;
  emit (EvNode Modified) ;;
  alloc inputSurface.

(** Lines 493-972: the stages and the dispatch of their results. *)
Definition stages (opts : Options) (inputPolyData : nat) : M unit :=
  inp ← load inputPolyData;
  shrinkModelPD ← alloc (enclosingSphere inp);
  firstPass opts inputPolyData shrinkModelPD
    (seq 0 (Z.to_nat (iterationsFirstShrinkwrap opts))) ;;
  if String.eqb (filterMode opts) MODE_CONVEXHULL then dispatch opts shrinkModelPD
  else
    raycastStage opts inputPolyData shrinkModelPD ;;
    if String.eqb (filterMode opts) MODE_RAYCASTS then dispatch opts shrinkModelPD
    else
      secondPass opts inputPolyData shrinkModelPD
        (seq 0 (Z.to_nat (iterationsSecondShrinkwrap opts + 1))) ;;
      runStage Smoothing inputPolyData shrinkModelPD
        (fun _ work => Some (smoothPolydata work)) ;;
      if String.eqb (filterMode opts) MODE_DEEPHULL then dispatch opts shrinkModelPD
      else
        capStage opts inputPolyData shrinkModelPD ;;
        if String.eqb (filterMode opts) MODE_NONMANIFOLD
        then dispatchNonmanifold opts shrinkModelPD
        else
          solid ← solidifyStage opts inputPolyData shrinkModelPD;
          if String.eqb (filterMode opts) MODE_SOLIDIFIED then dispatch opts solid
          else emit (EvError ErrUnknownFilterMode) ;; exit ExitFailed.

Definition ApplySRSFilter (kwargs : Kwargs) : M unit :=
  setCancelRequested false ;;
  let opts := make_options kwargs in
  logCallback MsgStarted ;;
  inputPolyData ← prepareNode opts;
  stages opts inputPolyData.

(** A run from a state of the logic object in which nothing has happened. *)
Definition initialWorld (cancelled : bool) : World := mkWorld ∅ cancelled 0 [].

(** The identity of the object [inputPolyData] in such a run. *)
Definition inputObject : nat := fresh (dom (∅ : gmap nat PolyData)).

Definition run (kwargs : Kwargs) : Res unit * World :=
  ApplySRSFilter kwargs (initialWorld false).

End Run.

(** ** The options of the effect: lines 226-251 and 975-989 *)

Definition ARG_OUTPUTTYPE : string := "outputType".
Definition ARG_FILTERMODE : string := "filterMode".



(** ** The Apply button: lines 254-280 and 300-302 *)








(** ** Reading a trace *)

(** The events that commit an output: a model is added, or the segment is
    replaced. *)
Definition isCommit (e : Event) : bool :=
  match e with
  | EvAddModel _ => true
  | EvNode (SegmentDeepCopy _) => true
  | _ => false
  end.

(** The calls made on the segmentation node, in order. *)
Definition nodeOps (t : list Event) : list NodeOp :=
  flat_map (fun e => match e with EvNode op => [op] | _ => [] end) t.

(** The stages computed, in order. *)
Definition stagesRun (t : list Event) : list Stage :=
  flat_map (fun e => match e with EvStage s _ => [s] | _ => [] end) t.

(** The events of the first log call and of lines 479-488. *)
Definition preparation (hasDisplayNode : bool) (opts : Options) : list Event :=
  [EvLog MsgStarted;
   EvNode (SetConversionParameter (smoothingFactor opts));
   EvNode RemoveClosedSurfaceRepresentation;
   EvNode CreateClosedSurfaceRepresentation;
   EvNode Modified]
  ++ (if hasDisplayNode then [EvNode UpdateScene] else [])
  ++ [EvNode Modified].

(** The stages that precede the dispatch of a filter mode. *)
Definition stagesBefore (mode : string) : list Stage :=
  if String.eqb mode MODE_CONVEXHULL then []
  else if String.eqb mode MODE_RAYCASTS then [Subdivide; Raycast]
  else if String.eqb mode MODE_DEEPHULL then [Subdivide; Raycast; Smoothing]
  else if String.eqb mode MODE_NONMANIFOLD then [Subdivide; Raycast; Smoothing; RemoveCaps]
  else [Subdivide; Raycast; Smoothing; RemoveCaps; Solidification].

(** ** What a run computes

    The composition of the stages, as a function of the options and of the
    input surface. *)

(** [n] rounds of [f], each on the result of the one before; a round that
    raises ends them. *)
Fixpoint rounds {A : Type} (n : nat) (f : A -> option A) (a : A) : option A :=
  match n with
  | O => Some a
  | S k => a' ← f a; rounds k f a'
  end.

Section Pipeline.

Context `{VTK}.
Variable opts : Options.
Variable inputPolyData : PolyData.

(** Lines 522-563: with n = iterationsFirstShrinkwrap above 0, n
    shrinkwraps with a remesh between two of them; none otherwise. *)
Definition firstPassMesh (sphere : PolyData) : option PolyData :=
  let shrink := shrinkwrap inputPolyData (offsetFirstShrinkwrap opts) in
  let remesh := fun work => remeshPolydata work (replicate 3 (spacingFirstRemesh opts)) in
  match Z.to_nat (iterationsFirstShrinkwrap opts) with
  | O => Some sphere
  | S k => rounds k (fun work => shrink <$> remesh work) (shrink sphere)
  end.

Definition firstPassStages : list Stage :=
  match Z.to_nat (iterationsFirstShrinkwrap opts) with
  | O => []
  | S k => FirstShrinkwrap :: concat (replicate k [Remesh; FirstShrinkwrap])
  end.

(** Lines 585-732 *)
Definition raycastMesh (work : PolyData) : option PolyData :=
  prep ← raycastPrepare opts work;
  raycastProject opts inputPolyData (fst (fst prep)) (snd (fst prep)) (snd prep).

(** Lines 750-772: with m = iterationsSecondShrinkwrap at least 0, m + 1
    remeshes with a smoothing towards the input between two of them; nothing
    when m is negative. *)
Definition secondPassMesh (work : PolyData) : option PolyData :=
  let remesh := fun work => remeshPolydata work (replicate 3 (spacingSecondRemesh opts)) in
  let smooth := fun work => smoothPolyDataFilter work inputPolyData in
  match Z.to_nat (iterationsSecondShrinkwrap opts + 1) with
  | O => Some work
  | S k => work ← rounds k (fun work => smooth <$> remesh work) work; remesh work
  end.

Definition secondPassStages : list Stage :=
  match Z.to_nat (iterationsSecondShrinkwrap opts + 1) with
  | O => []
  | S k => concat (replicate k [Remesh; SecondShrinkwrap]) ++ [Remesh]
  end.

(** The mesh handed to the dispatch of the filter mode; a filter mode that
    is not one of the five goes through every stage. *)
Definition pipelineFrom (sphere : PolyData) : option PolyData :=
  hull ← firstPassMesh sphere;
  if String.eqb (filterMode opts) MODE_CONVEXHULL then Some hull
  else
    rays ← raycastMesh hull;
    if String.eqb (filterMode opts) MODE_RAYCASTS then Some rays
    else
      remeshed ← secondPassMesh rays;
      let deep := smoothPolydata remeshed in
      if String.eqb (filterMode opts) MODE_DEEPHULL then Some deep
      else
        let nonsolid := removeCaps inputPolyData (maxModelDistance opts) deep in
        if String.eqb (filterMode opts) MODE_NONMANIFOLD then Some nonsolid
        else solidify (solidificationThickness opts) nonsolid.

Definition outputMesh : option PolyData := pipelineFrom (enclosingSphere inputPolyData).

(** The stages computed by a run that reaches its dispatch, in order. *)
Definition expectedStages : list Stage :=
  firstPassStages
  ++ if String.eqb (filterMode opts) MODE_CONVEXHULL then []
     else [Subdivide; Raycast]
          ++ if String.eqb (filterMode opts) MODE_RAYCASTS then []
             else secondPassStages ++ [Smoothing]
                  ++ if String.eqb (filterMode opts) MODE_DEEPHULL then []
                     else [RemoveCaps]
                          ++ if String.eqb (filterMode opts) MODE_NONMANIFOLD then []
                             else [Solidification].

End Pipeline.

Definition knownMode (opts : Options) : bool :=
  String.eqb (filterMode opts) MODE_CONVEXHULL || String.eqb (filterMode opts) MODE_RAYCASTS
  || String.eqb (filterMode opts) MODE_DEEPHULL || String.eqb (filterMode opts) MODE_NONMANIFOLD
  || String.eqb (filterMode opts) MODE_SOLIDIFIED.

Definition knownOutput (opts : Options) : bool :=
  String.eqb (outputType opts) OUTPUT_SEGMENTATION || String.eqb (outputType opts) OUTPUT_MODEL.

(** The value returned by a run that reaches a dispatch, or the end of the
    function. *)
Definition expectedExit (opts : Options) : Exit :=
  if knownMode opts && knownOutput opts then ExitDone else ExitFailed.

(** The commit events of a trace, and the commit a dispatch makes of the
    mesh [pd] when no cancellation is pending. *)
Definition commits (t : list Event) : list Event := List.filter isCommit t.

Definition commitOf (opts : Options) (pd : PolyData) : list Event :=
  if negb (knownMode opts) then []
  else if String.eqb (outputType opts) OUTPUT_SEGMENTATION then
    if String.eqb (filterMode opts) MODE_NONMANIFOLD then [] else [EvNode (SegmentDeepCopy pd)]
  else if String.eqb (outputType opts) OUTPUT_MODEL then [EvAddModel pd]
  else [].

(** ** Vocabulary of the properties *)

(** A float that is neither a NaN nor an infinity, and one that moreover is
    not a zero. *)
Definition finiteFloat (x : float) : Prop :=
  match Prim2SF x with
  | S754_zero _ => True
  | S754_finite _ _ _ => True
  | _ => False
  end.

Definition nonzeroFloat (x : float) : Prop :=
  match Prim2SF x with
  | S754_finite _ _ _ => True
  | _ => False
  end.


Section HitVocabulary.

Variable dict : gmap nat Hit.
Variables minLength maxHitDistance : float.
Variable cells : list Cell.





End HitVocabulary.

Section RunVocabulary.

(** The mesh of the input surface, the identity of the object that holds
    it, and the events that precede the stages. *)
Variable input : PolyData.
Variable l_in : nat.
Variable pre : list Event.

(** The events of the stages: log calls, and stage computations that saw
    the input surface as it was at the start. *)
Definition bodyEvent (e : Event) : Prop :=
  match e with
  | EvLog _ => True
  | EvStage _ pd => pd = input
  | _ => False
  end.

(** The events of a dispatch: anything but a stage computation. *)
Definition tailEvent (e : Event) : Prop :=
  match e with
  | EvStage _ _ => False
  | _ => True
  end.

(** While the stages run: the input object holds the input surface, only
    stage events have followed the preparation, and the stages [seen] are
    among them. *)
Definition Body (seen : list Stage) (w : World) : Prop :=
  heap w !! l_in = Some input /\
  exists t, trace w = pre ++ t /\ Forall bodyEvent t /\
            forall s, In s seen -> In (EvStage s input) t.

(** A statement of the stages: it keeps [Body], runs the stages [add] when
    it goes on, and returns from the function only through a cancellation
    check. *)
Definition spec {A : Type} (m : M A) (add : list Stage) (Q : A -> Prop) : Prop :=
  forall seen w, Body seen w ->
    match m w with
    | (Continue a, w') => Body (add ++ seen) w' /\ Q a
    | (Return e, w') => e = ExitCancelled /\ Body seen w'
    | (Raised, w') => Body seen w'
    end.

(** The end of a run, for the options [opts]: after the preparation come
    the events [t] of the stages, then the events [d] of the dispatch. *)
Definition Finished (opts : Options) (r : Res unit) (w : World) : Prop :=
  heap w !! l_in = Some input /\
  exists t d, trace w = pre ++ t ++ d /\ Forall bodyEvent t /\
    match r with
    | Continue _ => False
    | Raised => d = []
    | Return ExitCancelled => d = []
    | Return _ =>
        Forall tailEvent d /\
        (forall s, In s (stagesBefore (filterMode opts)) -> In (EvStage s input) t) /\
        (filterMode opts = MODE_NONMANIFOLD -> outputType opts = OUTPUT_SEGMENTATION ->
         d = [EvError ErrSegmentationNotPossible; EvLog MsgNone])
    end.

Definition terminal (opts : Options) (m : M unit) (seen : list Stage) : Prop :=
  forall w, Body seen w -> Finished opts (fst (m w)) (snd (m w)).

End RunVocabulary.

(** Line 600 as a test: the cell is flagged. *)
Definition isFlagged (searchEdgeLength : float) (pts : list vec3) (c : Cell) : bool :=
  match isLargeCell searchEdgeLength pts c with
  | Some true => true
  | _ => false
  end.

(** Point [p] belongs to a triangle of the mesh: line 666 lets the
    projection loop look at it. *)
Definition inTriangle (pd : PolyData) (p : nat) : Prop :=
  exists c, c ∈ Cells pd /\ cellType c = VTK_TRIANGLE /\ p ∈ pointIds c.

(** The ray cast from point [p] of the mesh [pd], against its normal. *)
Definition rayOf `{VTK} (inputPolyData : PolyData) (maxLength : float) (pd : PolyData)
    (p : nat) : Hit :=
  castRay inputPolyData maxLength (PointNormals pd) p (GetPoint (Points pd) p).

(** What an entry of the dictionary of projection results can hold for the
    point [p], given the points near the large faces. *)
Definition entryOf `{VTK} (inputPolyData : PolyData) (maxLength : float)
    (largePointIds : gset nat) (pd : PolyData) (p : nat) (h : Hit) : Prop :=
  (p ∉ largePointIds -> h = noHit) /\
  (p ∈ largePointIds ->
   hit_res h = hit_res (rayOf inputPolyData maxLength pd p) /\
   (hit_res h = true -> h = rayOf inputPolyData maxLength pd p)).

(** Point [i] is used by some cell of the mesh. *)
Definition pointUsed (pd : PolyData) (i : nat) : Prop :=
  exists c, c ∈ Cells pd /\ i ∈ pointIds c.




Section OutcomeVocabulary.

Variable cancelDuring : nat -> bool.
Variable input : PolyData.
Variable l_in : nat.

(** The user presses Cancel during some log call. *)
Definition cancelPressed : Prop := exists k, cancelDuring k = true.

(** Between two stages: the input object holds the input surface, the
    object [l] holds the working mesh [work], nothing has been committed, the
    stages [ss] have been computed, and a pending request comes from the
    user. *)
Definition Running (l : nat) (work : PolyData) (ss : list Stage) (w : World) : Prop :=
  heap w !! l_in = Some input /\ heap w !! l = Some work /\ l <> l_in /\
  commits (trace w) = [] /\ stagesRun (trace w) = ss /\
  (cancelRequested w = true -> cancelPressed).

(** A statement that computes [g] on the working mesh through the stages
    [add]: it goes on with the result, is cancelled, or raises when [g]
    does. *)
Definition stage_ok (l : nat) (m : M unit) (g : PolyData -> option PolyData)
    (add : list Stage) : Prop :=
  forall work ss w, Running l work ss w ->
    match m w with
    | (Continue _, w') => exists work', g work = Some work' /\ Running l work' (ss ++ add) w'
    | (Return e, w') => e = ExitCancelled /\ commits (trace w') = [] /\ cancelPressed
    | (Raised, w') => g work = None /\ commits (trace w') = []
    end.

(** The end of a run whose stages compute [mesh] through the stages [ss]. *)
Definition Ended (opts : Options) (mesh : option PolyData) (ss : list Stage)
    (r : Res unit) (w : World) : Prop :=
  match r with
  | Continue _ => False
  | Raised => mesh = None /\ commits (trace w) = []
  | Return ExitCancelled => commits (trace w) = [] /\ cancelPressed
  | Return e =>
      e = expectedExit opts /\
      exists pd, mesh = Some pd /\ stagesRun (trace w) = ss /\
        (commits (trace w) = commitOf opts pd \/ (commits (trace w) = [] /\ cancelPressed))
  end.

Definition finish_ok (opts : Options) (l : nat) (m : M unit)
    (g : PolyData -> option PolyData) (add : list Stage) : Prop :=
  forall work ss w, Running l work ss w ->
    Ended opts (g work) (ss ++ add) (fst (m w)) (snd (m w)).

End OutcomeVocabulary.

(** ** Sample inputs *)

(** A kernel whose filters leave a mesh as it is, whose locator answers the
    query point itself, whose rays hit nothing, and for which every point is
    on the surface: the choices a run makes with it are those of the code. *)
Definition tetra : PolyData :=
  mkPolyData [V3 0 0 0; V3 1 0 0; V3 0 1 0; V3 0 0 1]%float
             [triangle 0 2 1; triangle 0 1 3; triangle 0 3 2; triangle 1 2 3] [] [].

#[local] Instance idleVTK : VTK := {|
  GetBounds := fun _ => [0; 1; 0; 1; 0; 1]%float;
  stencilSurface := fun pd _ _ _ => pd;
  enclosingSphere := fun _ => tetra;
  FindClosestPoint := fun _ p => p;
  IntersectWithLine := fun _ _ _ _ => vzero;
  adaptiveSubdivisionClean := fun pd _ => pd;
  EvaluateFunction := fun _ _ => 0%float;
  pointNormalsFilter := fun pd => pd;
  smoothPolyDataFilter := fun pd _ => pd;
  windowedSinc := fun pd => pd;
  cleanCellNormals := fun pd =>
    mkPolyData (Points pd) (Cells pd) (PointNormals pd)
               (map (fun _ => V3 0 0 1%float) (Cells pd));
  featureEdges := fun _ => emptyPolyData;
  IsInsertedPoint := fun _ _ => -1;
  triangleFilter := fun pd => pd
|}.

(** Keyword arguments: one first-pass iteration and no second-pass
    iteration, with the given output type and filter mode. *)
Definition kwShort (output mode : string) : Kwargs :=
  mkKwargs (Some output) (Some mode) None None None (Some 1) (Some 0)
           None None None None None None None None.

(** The user presses Cancel while the first log call is shown. *)
Definition cancelAtStart (k : nat) : bool := Nat.eqb k 0.
Definition neverCancel (k : nat) : bool := false.

(** An isosceles triangle: two sides of length 5 and the closing side, from
    the last point back to the first, of length 6. *)
Definition isosceles : PolyData :=
  mkPolyData [V3 0 0 0; V3 3 4 0; V3 6 0 0]%float [triangle 0 1 2] [] [].



(** Two coplanar triangles that share point 0 only and wind in opposite
    senses: their normals are (0,0,1) and (0,0,-1). *)
Definition bowtie : PolyData :=
  mkPolyData [V3 0 0 0; V3 1 0 0; V3 0 1 0; V3 (-1) 0 0; V3 0 (-1) 0]%float
             [triangle 0 1 2; triangle 0 4 3] []
             [V3 0 0 1; V3 0 0 (-1)]%float.



(** Keyword arguments with a search edge length of 4.5. *)
Definition kwSearch : Kwargs :=
  mkKwargs None None None None None None None (Some 4.5%float) None None None None None None None.

(** A triangle and a fourth point that no cell uses. *)
Definition loosePoint : PolyData :=
  mkPolyData [V3 0 0 0; V3 1 0 0; V3 0 1 0; V3 0 0 1]%float [triangle 0 1 2] [] [].



(** * Properties *)

(** ** Remeshing *)


Lemma remesh_dim_positive (bounds spacing : list float) (i : nat) (d : Z) :
  remesh_dim bounds spacing i = Some d -> 1 <= d.
Proof.
  unfold remesh_dim. destruct (_ =? _)%float; [discriminate|].
  destruct (math_ceil _) as [c|]; simpl; [|discriminate].
  intros [= <-]. destruct (Z.ltb_spec (c + 1) 1); lia.
Qed.

(** On an axis of zero extent the formula itself gives 1: the quotient is a
    zero, whatever the finite bound and the finite non-zero spacing. *)
Lemma sub_diag_zero (x : float) : finiteFloat x -> Prim2SF (x - x)%float = S754_zero false.
Proof.
  unfold finiteFloat. intros Hx. rewrite sub_spec. unfold SF64sub, SFsub.
  destruct (Prim2SF x) as [[|]|?| |s m e]; try contradiction; try reflexivity.
  rewrite Z.sub_diag. reflexivity.
Qed.

(** X12. Along an axis on which the mesh has no extent, with a finite bound
    and a finite non-zero spacing, the remesher computes the dimension 1. *)
Lemma remesh_dim_zero_extent (bounds spacing : list float) (i : nat) :
  nth (i * 2 + 1) bounds 0%float = nth (i * 2) bounds 0%float ->
  finiteFloat (nth (i * 2) bounds 0%float) ->
  nonzeroFloat (nth i spacing 0%float) ->
  remesh_dim bounds spacing i = Some 1.
Proof.
  intros Heq Hb Hs. unfold remesh_dim. rewrite Heq.
  assert (Hz : (nth i spacing 0 =? 0)%float = false).
  { rewrite FloatAxioms.eqb_spec. unfold nonzeroFloat in Hs.
    destruct (Prim2SF (nth i spacing 0%float)) as [?|?| |s m e]; try contradiction.
    destruct s; reflexivity. }
  rewrite Hz.
  assert (Hq : math_ceil ((nth (i * 2) bounds 0 - nth (i * 2) bounds 0) / nth i spacing 0)%float
               = Some 0).
  { unfold math_ceil. rewrite div_spec, (sub_diag_zero _ Hb).
    unfold nonzeroFloat in Hs.
    destruct (Prim2SF (nth i spacing 0%float)) as [?|?| |s m e]; try contradiction.
    reflexivity. }
  rewrite Hq. reflexivity.
Qed.




(** ** First shrinkwrap pass *)

Section Shrinkwrap.

Variable closest : vec3 -> vec3.
Variable offset : float.






End Shrinkwrap.


(** ** Raycast stage: the large faces *)

(** The edges measured are those between consecutive points: one fewer than
    the cell has points, the edge that closes the cell is not among them. *)
Lemma edgeLength_length (pointsArray : list vec3) :
  length (edgeLength pointsArray) = (length pointsArray - 1)%nat.
Proof. unfold edgeLength. rewrite length_map, length_seq. reflexivity. Qed.

Lemma py_max_In (l : list float) (m : float) : py_max l = Some m -> In m l.
Proof.
  destruct l as [|x rest]; simpl; [discriminate|]. intros [= <-].
  revert x. induction rest as [|y rest IH]; intros x; simpl; [left; reflexivity|].
  destruct (IH (if fgt y x then y else x)) as [Heq|Hin].
  - rewrite <- Heq. destruct (fgt y x); [right; left|left]; reflexivity.
  - right. right. exact Hin.
Qed.

(** X3. A flagged face has an edge between two consecutive points that is
    longer than the search edge length: the closing edge never flags it. *)
Lemma isLargeCell_flagged (searchEdgeLength : float) (pts : list vec3) (c : Cell) :
  isLargeCell searchEdgeLength pts c = Some true ->
  exists pa, (pa + 1 < length (pointIds c))%nat /\
    fgt (norm (vsub (GetPoint (cellPoints pts c) pa) (GetPoint (cellPoints pts c) (pa + 1))))
        searchEdgeLength = true.
Proof.
  unfold isLargeCell. destruct (py_max _) as [m|] eqn:Hmax; simpl; [|discriminate].
  intros [= Hm]. apply py_max_In in Hmax. unfold edgeLength in Hmax.
  apply in_map_iff in Hmax as (pa & <- & Hpa). apply in_seq in Hpa.
  exists pa. split; [|exact Hm].
  unfold cellPoints in Hpa. rewrite length_map in Hpa. lia.
Qed.

(** C4 at a triangle with sides 5, 5 and a closing side of 6, for a search
    edge length of 5.5: the two edges measured are the sides of length 5, the
    face is not flagged, although its longest edge, the closing one, exceeds
    the search edge length. *)
Theorem large_face_closing_edge_ignored :
  edgeLength (cellPoints (Points isosceles) (triangle 0 1 2)) = [5; 5]%float /\
  findLargeCells 5.5%float isosceles = Some [] /\
  fgt (norm (vsub (GetPoint (Points isosceles) 2) (GetPoint (Points isosceles) 0))) 5.5 = true.
Proof. repeat split; vm_compute; reflexivity. Qed.

(** ** Raycast stage: the gate of line 634 *)

Lemma raycastProject_closed `{VTK} (opts : Options) (inputPolyData : PolyData)
    (largeCellIds : list nat) (largeCellsPolyData shrinkModelPD : PolyData) :
  largeCellIds = [] \/ fgt (raycastMaxLength opts) 0 = false ->
  raycastProject opts inputPolyData largeCellIds largeCellsPolyData shrinkModelPD
  = Some shrinkModelPD.
Proof.
  intros Hgate. unfold raycastProject. destruct Hgate as [-> | ->]; [reflexivity|].
  rewrite andb_false_r. reflexivity.
Qed.

(** C10. When no cell was flagged as large, or raycastMaxLength is not above
    0, the stage still subdivides and cleans the working mesh, and leaves
    the subdivided and cleaned mesh as it is: no vertex is relocated. *)
Theorem raycast_gate_closed `{VTK} (opts : Options) (inputPolyData shrinkModelPD : PolyData)
    (largeCellIds : list nat) (largeCellsPolyData subdivided : PolyData) :
  raycastPrepare opts shrinkModelPD = Some (largeCellIds, largeCellsPolyData, subdivided) ->
  largeCellIds = [] \/ fgt (raycastMaxLength opts) 0 = false ->
  subdivided = adaptiveSubdivisionClean shrinkModelPD (raycastOutputEdgeLength opts) /\
  raycastProject opts inputPolyData largeCellIds largeCellsPolyData subdivided = Some subdivided /\
  forall result,
    raycastProject opts inputPolyData largeCellIds largeCellsPolyData subdivided = Some result ->
    Points result = Points subdivided.
Proof.
  intros Hprep Hgate. unfold raycastPrepare in Hprep.
  destruct (findLargeCells _ _) as [ids|]; simpl in Hprep; [|discriminate].
  injection Hprep as <- <- <-.
  split; [reflexivity|].
  rewrite (raycastProject_closed opts inputPolyData ids _ _ Hgate).
  split; [reflexivity|]. intros result [= <-]. reflexivity.
Qed.

(** No face of the tetrahedron has an edge above the default search edge
    length of 20: the stage leaves the mesh as it is. *)
Lemma raycast_gate_closed_witness :
  raycastProject (make_options no_kwargs) tetra [] (extractLargeCells tetra []) tetra
    = Some tetra.
Proof.
  destruct (raycast_gate_closed (make_options no_kwargs) tetra tetra []
              (extractLargeCells tetra []) tetra) as (_ & Hproj & _).
  - vm_compute. reflexivity.
  - left. reflexivity.
  - exact Hproj.
Defined.

(** ** Cap removal *)

Lemma filter_idx_from {A : Type} (keep : nat -> bool) (q : A -> bool) (l : list A) (s : nat) :
  (forall i x, l !! i = Some x -> keep (s + i)%nat = q x) ->
  map snd (List.filter (fun p => keep (fst p)) (combine (seq s (length l)) l))
  = List.filter q l.
Proof.
  revert s. induction l as [|x l IH]; intros s Hk; simpl; [reflexivity|].
  rewrite <- (Hk 0%nat x eq_refl), Nat.add_0_r.
  assert (Hrest : map snd (List.filter (fun p => keep (fst p)) (combine (seq (S s) (length l)) l))
                  = List.filter q l).
  { apply IH. intros i y Hy. rewrite <- (Hk (S i) y Hy). f_equal. lia. }
  destruct (keep s); simpl; rewrite Hrest; reflexivity.
Qed.

Lemma filter_idx_filter {A : Type} (keep : nat -> bool) (q : A -> bool) (l : list A) :
  (forall i x, l !! i = Some x -> keep i = q x) ->
  filter_idx keep l = List.filter q l.
Proof. intros Hk. unfold filter_idx. apply filter_idx_from. exact Hk. Qed.

(** The scan of a cell reaches [DeleteCell] exactly when one of its points
    is farther than the maximal distance. *)
Lemma capScan_existsb (distance : vec3 -> float) (maxModelDistance : float) (points : list vec3) :
  capScan distance maxModelDistance points
  = existsb (fun point => fgt (PrimFloat.abs (distance point)) maxModelDistance) points.
Proof.
  induction points as [|p rest IH]; simpl; [reflexivity|].
  rewrite IH. destruct (fgt _ _); reflexivity.
Qed.

Lemma capMarks_fold (distance : vec3 -> float) (maxModelDistance : float) (pd : PolyData)
    (n s : nat) (d : gset nat) (c : nat) :
  c ∈ fold_left (fun (d : gset nat) (c : nat) =>
                   let cell := default (mkCell 0 []) (Cells pd !! c) in
                   if capScan distance maxModelDistance (cellPoints (Points pd) cell)
                   then DeleteCell d c else d) (seq s n) d
  <-> c ∈ d \/ ((s <= c < s + n)%nat /\
               capScan distance maxModelDistance
                 (cellPoints (Points pd) (default (mkCell 0 []) (Cells pd !! c))) = true).
Proof.
  revert s d. induction n as [|n IH]; intros s d; simpl.
  - split; [auto|]. intros [?|[? _]]; [assumption|lia].
  - rewrite IH. unfold DeleteCell.
    destruct (capScan distance maxModelDistance
                (cellPoints (Points pd) (default (mkCell 0 []) (Cells pd !! s)))) eqn:Hs.
    + rewrite elem_of_union, elem_of_singleton. split.
      * intros [[->|?]|[? ?]]; [right; split; [lia|exact Hs]|left; assumption|right; split; [lia|assumption]].
      * intros [?|[Hr Hc]]; [left; right; assumption|].
        destruct (decide (c = s)) as [->|?]; [left; left; reflexivity|right; split; [lia|exact Hc]].
    + split.
      * intros [?|[? ?]]; [left; assumption|right; split; [lia|assumption]].
      * intros [?|[Hr Hc]]; [left; assumption|].
        destruct (decide (c = s)) as [->|?]; [congruence|right; split; [lia|exact Hc]].
Qed.

(** C7. Cap removal keeps, in their order, exactly the cells none of whose
    points lies farther from the input surface (in absolute signed distance)
    than maxModelDistance, and deletes every cell with at least one such
    point; the points of the mesh are left as they are. *)
Theorem removeCaps_cells `{VTK} (inputPolyData : PolyData) (maxModelDistance : float)
    (shrinkModelPD : PolyData) :
  let tooFar := fun point =>
    fgt (PrimFloat.abs (EvaluateFunction inputPolyData point)) maxModelDistance in
  Cells (removeCaps inputPolyData maxModelDistance shrinkModelPD)
    = List.filter (fun cell => negb (existsb tooFar (cellPoints (Points shrinkModelPD) cell)))
                  (Cells shrinkModelPD) /\
  Points (removeCaps inputPolyData maxModelDistance shrinkModelPD) = Points shrinkModelPD.
Proof.
  intros tooFar. split; [|reflexivity].
  unfold removeCaps, RemoveDeletedCells. simpl.
  apply filter_idx_filter. intros i cell Hcell.
  f_equal. unfold capMarks, GetNumberOfCells. subst tooFar.
  rewrite <- (capScan_existsb (EvaluateFunction inputPolyData)).
  destruct (capScan _ _ (cellPoints (Points shrinkModelPD) cell)) eqn:Hscan.
  - apply bool_decide_eq_true_2. apply capMarks_fold. right.
    split; [apply lookup_lt_Some in Hcell; lia|]. rewrite Hcell. exact Hscan.
  - apply bool_decide_eq_false_2. rewrite capMarks_fold. intros [Hin|[_ Hc]].
    + set_solver.
    + rewrite Hcell in Hc. simpl in Hc. congruence.
Qed.

(** ** Raycast stage: which hits are accepted *)

Section Acceptance.

Variable dict : gmap nat Hit.
Variables minLength maxHitDistance : float.
Variable cells : list Cell.



Lemma GetPointCells_spec (i c : nat) :
  c ∈ GetPointCells cells i <-> exists cell, cells !! c = Some cell /\ i ∈ pointIds cell.
Proof.
  unfold GetPointCells. rewrite list_elem_of_In, filter_In, in_seq.
  split.
  - intros [_ Hc]. destruct (cells !! c) as [cell|]; [|discriminate].
    exists cell. split; [reflexivity|]. unfold usesPoint in Hc.
    apply existsb_exists in Hc as (k & Hk & Heq). apply Nat.eqb_eq in Heq as ->.
    apply list_elem_of_In. exact Hk.
  - intros (cell & Hcell & Hi). split.
    + apply lookup_lt_Some in Hcell. lia.
    + rewrite Hcell. unfold usesPoint. apply existsb_exists. exists i.
      split; [apply list_elem_of_In; exact Hi|apply Nat.eqb_refl].
Qed.



(** A point without an entry in the dictionary makes line 710 raise. *)
Lemma acceptHits_missing_entry (pts : list vec3) (i : nat) :
  (i < length pts)%nat -> dict !! i = None ->
  acceptHits dict minLength maxHitDistance cells pts = None.
Proof.
  intros Hi Hnone. unfold acceptHits.
  assert (Hnone_fold : forall l,
    foldl (fun acc k => pts0 ← acc; acceptHit dict minLength maxHitDistance cells pts0 k)
          None l = None).
  { induction l as [|k l IH]; simpl; [reflexivity|exact IH]. }
  assert (Hgen : forall n s acc, (s <= i < s + n)%nat ->
    foldl (fun acc k => pts0 ← acc; acceptHit dict minLength maxHitDistance cells pts0 k)
          acc (seq s n) = None).
  { induction n as [|n IH]; intros s acc Hr; [lia|]. simpl.
    destruct (decide (i = s)) as [->|Hne].
    - destruct acc as [pts0|]; simpl; [|apply Hnone_fold].
      unfold acceptHit. rewrite Hnone. simpl. apply Hnone_fold.
    - apply IH. lia. }
  apply Hgen. lia.
Qed.


End Acceptance.




(** A recorded hit belongs to a point of the large-face region. *)
Lemma projection_hits_are_candidates `{VTK} (inputPolyData : PolyData) (maxLength : float)
    (largePointIds : gset nat) (pd : PolyData) (j : nat) (h : Hit) :
  projection inputPolyData maxLength largePointIds pd !! j = Some h ->
  hit_res h = true -> j ∈ largePointIds.
Proof.
  unfold projection.
  assert (Hgen : forall cs (d : gmap nat Hit),
    (forall k hk, d !! k = Some hk -> hit_res hk = true -> k ∈ largePointIds) ->
    forall k hk,
      fold_left (projectCell inputPolyData maxLength largePointIds pd) cs d !! k = Some hk ->
      hit_res hk = true -> k ∈ largePointIds).
  { induction cs as [|c cs IH]; intros d Hd; simpl; [exact Hd|].
    apply IH. unfold projectCell. destruct (cellType c =? VTK_TRIANGLE); [|exact Hd].
    generalize (pointIds c). intros ids. revert d Hd.
    induction ids as [|p ids IHp]; intros d Hd; simpl; [exact Hd|].
    apply IHp. intros k hk. unfold projectPoint.
    destruct (bool_decide (p ∈ largePointIds)) eqn:Hp; simpl.
    - apply bool_decide_eq_true_1 in Hp.
      destruct (match d !! p with Some h0 => negb (hit_res h0) | None => false end).
      + rewrite lookup_insert. destruct (decide (p = k)); [|apply Hd].
        intros Heq Hres. injection Heq as Heq. subst hk. discriminate.
      + rewrite lookup_insert. destruct (decide (p = k)); [subst; intros _ _; exact Hp|apply Hd].
    - rewrite lookup_insert. destruct (decide (p = k)); [|apply Hd].
      intros Heq Hres. injection Heq as Heq. subst hk. discriminate. }
  apply Hgen. intros k hk Hk. rewrite lookup_empty in Hk. discriminate.
Qed.

(** ** Solidification *)

Lemma nan_mul_l (x : float) : (nan * x)%float = nan.
Proof. apply Prim2SF_inj. rewrite mul_spec. reflexivity. Qed.

Lemma nan_add_l (x : float) : (nan + x)%float = nan.
Proof. apply Prim2SF_inj. rewrite add_spec. reflexivity. Qed.

Lemma nan_add_r (x : float) : (x + nan)%float = nan.
Proof.
  apply Prim2SF_inj. rewrite add_spec. change (Prim2SF nan) with S754_nan.
  unfold SF64add, SFadd. destruct (Prim2SF x); reflexivity.
Qed.

(** X17. Whenever the negated normals around a vertex sum to the zero vector,
    whatever the vertex, the normals and the thickness, the new vertex has
    three NaN coordinates. *)
Lemma offsetVertex_zero_average (thickness : float) (point n0 : vec3) (rest : list vec3) :
  fold_left vadd (n0 :: rest) vzero = vzero ->
  offsetVertex thickness point (n0 :: rest) = Some (V3 nan nan nan).
Proof.
  intros Hsum. unfold offsetVertex. rewrite Hsum.
  change (vdiv vzero (norm vzero)) with (V3 nan nan nan).
  simpl. unfold vdot, vscale, vadd, vmap2. simpl.
  repeat (rewrite nan_mul_l || rewrite nan_add_l || rewrite nan_add_r). reflexivity.
Qed.

(** A vertex that no cell uses makes line 891 raise. *)
Lemma offsetVertex_no_cell (thickness : float) (point : vec3) :
  offsetVertex thickness point [] = None.
Proof. reflexivity. Qed.

(** C6 at a vertex whose two incident face normals are opposite: the negated
    normals sum to the zero vector, the division by its norm is 0/0, and the
    new vertex has NaN coordinates; no fallback is taken. *)
Theorem solidification_zero_average :
  incidentNormals bowtie 0 = [V3 (-0) (-0) (-1); V3 (-0) (-0) 1]%float /\
  fold_left vadd (incidentNormals bowtie 0) vzero = vzero /\
  norm vzero = 0%float /\
  exists v rest,
    addingPoints 1.5%float bowtie = Some (v :: rest) /\
    PrimFloat.is_nan (vx v) = true /\ PrimFloat.is_nan (vy v) = true /\
    PrimFloat.is_nan (vz v) = true.
Proof.
  split; [vm_compute; reflexivity|].
  split; [vm_compute; reflexivity|].
  split; [vm_compute; reflexivity|].
  destruct (addingPoints 1.5%float bowtie) as [[|v rest]|] eqn:Hadd;
    vm_compute in Hadd; try discriminate.
  injection Hadd as <- <-. eexists _, _. split; [reflexivity|].
  repeat split; vm_compute; reflexivity.
Qed.

(** ** The run: what the stages may do *)

Lemma bind_run {A B : Type} (m : M A) (f : A -> M B) (w : World) :
  (m ≫= f) w = match m w with
               | (Continue a, w') => f a w'
               | (Return e, w') => (Return e, w')
               | (Raised, w') => (Raised, w')
               end.
Proof. reflexivity. Qed.

Section Stages.

Context `{VTK}.
Variable cancelDuring : nat -> bool.
Variable hasDisplayNode : bool.

(** The mesh of the input surface, the identity of the object that holds
    it, and the events that precede the stages. *)
Variable input : PolyData.
Variable l_in : nat.
Variable pre : list Event.

Lemma Body_weaken (seen seen' : list Stage) (w : World) :
  (forall s, In s seen' -> In s seen) -> Body input l_in pre seen w -> Body input l_in pre seen' w.
Proof.
  intros Hincl (Hheap & t & Ht & Hall & Hseen).
  split; [exact Hheap|]. exists t. repeat split; auto.
Qed.

Lemma Body_event (seen : list Stage) (w w' : World) (e : Event) :
  heap w' = heap w -> trace w' = trace w ++ [e] -> bodyEvent input e ->
  Body input l_in pre seen w -> Body input l_in pre seen w'.
Proof.
  intros Hh Ht He (Hheap & t & Htr & Hall & Hseen).
  split; [rewrite Hh; exact Hheap|].
  exists (t ++ [e]). split; [rewrite Ht, Htr, app_assoc; reflexivity|].
  split; [apply Forall_app; split; [exact Hall|repeat constructor; exact He]|].
  intros s Hs. apply in_or_app. left. auto.
Qed.

Lemma Body_stage (seen : list Stage) (w w' : World) (s : Stage) :
  heap w' = heap w -> trace w' = trace w ++ [EvStage s input] ->
  Body input l_in pre seen w -> Body input l_in pre (s :: seen) w'.
Proof.
  intros Hh Ht (Hheap & t & Htr & Hall & Hseen).
  split; [rewrite Hh; exact Hheap|].
  exists (t ++ [EvStage s input]). split; [rewrite Ht, Htr, app_assoc; reflexivity|].
  split; [apply Forall_app; split; [exact Hall|repeat constructor]|].
  intros s' [<-|Hs]; apply in_or_app; [right; left; reflexivity|left; auto].
Qed.

Lemma Body_write (seen : list Stage) (w w' : World) (l : nat) (pd : PolyData) :
  heap w' = <[l := pd]> (heap w) -> trace w' = trace w -> l <> l_in ->
  Body input l_in pre seen w -> Body input l_in pre seen w'.
Proof.
  intros Hh Ht Hl (Hheap & t & Htr & Hrest).
  split; [rewrite Hh, lookup_insert_ne by exact Hl; exact Hheap|].
  exists t. rewrite Ht. split; [exact Htr|exact Hrest].
Qed.

Lemma spec_weaken {A : Type} (m : M A) (add add' : list Stage) (Q Q' : A -> Prop) :
  spec input l_in pre m add Q -> (forall a, Q a -> Q' a) -> (forall s, In s add' -> In s add) ->
  spec input l_in pre m add' Q'.
Proof.
  intros Hm HQ Hadd seen w Hw. specialize (Hm seen w Hw).
  destruct (m w) as [[a|e|] w']; [|exact Hm|exact Hm].
  destruct Hm as [Hb Hq]. split; [|auto].
  eapply Body_weaken; [|exact Hb].
  intros s Hs. apply in_app_or in Hs as [Hs|Hs]; apply in_or_app; auto.
Qed.

Lemma spec_bind {A B : Type} (m : M A) (f : A -> M B) (add1 add2 : list Stage)
    (Q1 : A -> Prop) (Q2 : B -> Prop) :
  spec input l_in pre m add1 Q1 -> (forall a, Q1 a -> spec input l_in pre (f a) add2 Q2) ->
  spec input l_in pre (m ≫= f) (add2 ++ add1) Q2.
Proof.
  intros Hm Hf seen w Hw. rewrite bind_run. specialize (Hm seen w Hw).
  destruct (m w) as [[a|e|] w']; [|exact Hm|exact Hm].
  destruct Hm as [Hb Hq]. specialize (Hf a Hq (add1 ++ seen) w' Hb).
  assert (Hsub : forall s, In s seen -> In s (add1 ++ seen))
    by (intros s Hs; apply in_or_app; right; exact Hs).
  destruct (f a w') as [[b|e|] w''].
  - rewrite <- app_assoc. exact Hf.
  - destruct Hf as [He Hb']. split; [exact He|]. eapply Body_weaken; eauto.
  - eapply Body_weaken; eauto.
Qed.

Lemma spec_ret {A : Type} (a : A) (Q : A -> Prop) : Q a -> spec input l_in pre (mret a) [] Q.
Proof. intros Hq seen w Hw. split; [exact Hw|exact Hq]. Qed.

Lemma spec_exit_cancelled {A : Type} (Q : A -> Prop) : spec input l_in pre (exit ExitCancelled) [] Q.
Proof. intros seen w Hw. split; [reflexivity|exact Hw]. Qed.

Lemma spec_logCallback (m : Msg) : spec input l_in pre (logCallback cancelDuring m) [] (fun _ => True).
Proof.
  intros seen w Hw. split; [|exact I].
  eapply (Body_event seen w); [reflexivity|reflexivity|exact I|exact Hw].
Qed.

Lemma spec_lift {A : Type} (o : option A) : spec input l_in pre (lift o) [] (fun a => o = Some a).
Proof. intros seen w Hw. destruct o; simpl; [split; [exact Hw|reflexivity]|exact Hw]. Qed.

Lemma spec_load (l : nat) : spec input l_in pre (load l) [] (fun pd => l = l_in -> pd = input).
Proof.
  intros seen w Hw. split; [exact Hw|].
  intros ->. destruct Hw as [Hheap _]. rewrite Hheap. reflexivity.
Qed.

Lemma spec_store (l : nat) (pd : PolyData) : l <> l_in -> spec input l_in pre (store l pd) [] (fun _ => True).
Proof.
  intros Hl seen w Hw. split; [|exact I].
  eapply (Body_write seen w); [reflexivity|reflexivity|exact Hl|exact Hw].
Qed.

Lemma spec_alloc (pd : PolyData) : spec input l_in pre (alloc pd) [] (fun l => l <> l_in).
Proof.
  intros seen w Hw.
  assert (Hfresh : fresh (dom (heap w)) <> l_in).
  { intros Heq. destruct Hw as [Hheap _].
    apply (is_fresh (dom (heap w))). rewrite Heq. apply elem_of_dom. eauto. }
  split; [|exact Hfresh].
  eapply (Body_write seen w); [reflexivity|reflexivity|exact Hfresh|exact Hw].
Qed.

Lemma spec_emit_stage (s : Stage) : spec input l_in pre (emit (EvStage s input)) [s] (fun _ => True).
Proof.
  intros seen w Hw. split; [|exact I].
  eapply (Body_stage seen w); [reflexivity|reflexivity|exact Hw].
Qed.

Lemma spec_checkCancel : spec input l_in pre (checkCancel cancelDuring) [] (fun _ => True).
Proof.
  intros seen w Hw. unfold checkCancel. rewrite bind_run. simpl.
  destruct (cancelRequested w).
  - rewrite bind_run. simpl. split; [reflexivity|].
    eapply (Body_event seen w); [reflexivity|reflexivity|exact I|exact Hw].
  - split; [exact Hw|exact I].
Qed.

Lemma spec_drop {A : Type} (m : M A) (add : list Stage) (Q : A -> Prop) :
  spec input l_in pre m add Q -> spec input l_in pre m [] (fun _ => True).
Proof. intros Hm. eapply spec_weaken; [exact Hm|auto|intros s []]. Qed.

Ltac spec_incl := let s := fresh "s" in intros s; simpl; tauto.

Lemma spec_runStage (s : Stage) (shrinkModelPD : nat)
    (f : PolyData -> PolyData -> option PolyData) :
  shrinkModelPD <> l_in ->
  spec input l_in pre (runStage s l_in shrinkModelPD f) [s] (fun _ => True).
Proof.
  intros Hl. unfold runStage.
  eapply spec_weaken; [|auto|].
  - eapply spec_bind; [apply spec_load|]. intros inp Hinp. rewrite (Hinp eq_refl).
    eapply spec_bind; [apply spec_load|]. intros work _.
    eapply spec_bind; [apply spec_lift|]. intros new _.
    eapply spec_bind; [apply spec_emit_stage|]. intros _ _.
    apply spec_store. exact Hl.
  - spec_incl.
Qed.

Lemma spec_firstPass (opts : Options) (shrinkModelPD : nat) (xs : list nat) :
  shrinkModelPD <> l_in ->
  spec input l_in pre (firstPass cancelDuring opts l_in shrinkModelPD xs) [] (fun _ => True).
Proof.
  intros Hl. induction xs as [|x rest IH]; simpl; [apply spec_ret; exact I|].
  eapply spec_drop.
  eapply spec_bind; [apply spec_checkCancel|]. intros _ _.
  eapply spec_bind; [apply spec_logCallback|]. intros _ _.
  eapply spec_bind; [apply spec_runStage; exact Hl|]. intros _ _.
  destruct (Z.of_nat x =? iterationsFirstShrinkwrap opts - 1).
  - exact (spec_ret tt (fun _ => True) I).
  - eapply spec_drop.
    eapply spec_bind; [apply spec_checkCancel|]. intros _ _.
    eapply spec_bind; [apply spec_logCallback|]. intros _ _.
    eapply spec_bind; [apply spec_runStage; exact Hl|]. intros _ _.
    exact IH.
Qed.

Lemma spec_secondPass (opts : Options) (shrinkModelPD : nat) (xs : list nat) :
  shrinkModelPD <> l_in ->
  spec input l_in pre (secondPass cancelDuring opts l_in shrinkModelPD xs) [] (fun _ => True).
Proof.
  intros Hl. induction xs as [|x rest IH]; simpl; [apply spec_ret; exact I|].
  eapply spec_drop.
  eapply spec_bind; [apply spec_checkCancel|]. intros _ _.
  eapply spec_bind; [apply spec_logCallback|]. intros _ _.
  eapply spec_bind; [apply spec_runStage; exact Hl|]. intros _ _.
  destruct (Z.of_nat x =? iterationsSecondShrinkwrap opts).
  - exact (spec_ret tt (fun _ => True) I).
  - eapply spec_drop.
    eapply spec_bind; [apply spec_checkCancel|]. intros _ _.
    eapply spec_bind; [apply spec_logCallback|]. intros _ _.
    eapply spec_bind; [apply spec_runStage; exact Hl|]. intros _ _.
    exact IH.
Qed.

Lemma spec_raycastStage (opts : Options) (shrinkModelPD : nat) :
  shrinkModelPD <> l_in ->
  spec input l_in pre (raycastStage cancelDuring opts l_in shrinkModelPD) [Subdivide; Raycast] (fun _ => True).
Proof.
  intros Hl. unfold raycastStage.
  eapply spec_weaken; [|auto|].
  - eapply spec_bind; [apply spec_checkCancel|]. intros _ _.
    eapply spec_bind; [apply spec_logCallback|]. intros _ _.
    eapply spec_bind; [apply spec_load|]. intros inp Hinp. rewrite (Hinp eq_refl).
    eapply spec_bind; [apply spec_load|]. intros work _.
    eapply spec_bind; [apply spec_lift|]. intros prep _.
    eapply spec_bind; [apply spec_alloc|]. intros large _.
    eapply spec_bind; [apply spec_emit_stage|]. intros _ _.
    eapply spec_bind; [apply spec_store; exact Hl|]. intros _ _.
    eapply spec_bind; [apply spec_checkCancel|]. intros _ _.
    eapply spec_bind; [apply spec_load|]. intros largePD _.
    apply spec_runStage. exact Hl.
  - spec_incl.
Qed.

Lemma spec_capStage (opts : Options) (shrinkModelPD : nat) :
  shrinkModelPD <> l_in ->
  spec input l_in pre (capStage cancelDuring opts l_in shrinkModelPD) [RemoveCaps] (fun _ => True).
Proof.
  intros Hl. unfold capStage.
  eapply spec_weaken; [|auto|].
  - eapply spec_bind; [apply spec_checkCancel|]. intros _ _.
    eapply spec_bind; [apply spec_logCallback|]. intros _ _.
    eapply spec_bind; [apply spec_load|]. intros work _.
    eapply spec_bind; [apply spec_alloc|]. intros nonsolid Hnonsolid.
    eapply spec_bind; [apply spec_load|]. intros inp Hinp. rewrite (Hinp eq_refl).
    eapply spec_bind; [apply spec_load|]. intros ns _.
    eapply spec_bind; [apply spec_emit_stage|]. intros _ _.
    eapply spec_bind; [apply spec_store; exact Hnonsolid|]. intros _ _.
    eapply spec_bind; [apply spec_load|]. intros new _.
    apply spec_store. exact Hl.
  - spec_incl.
Qed.

Lemma spec_solidifyStage (opts : Options) (shrinkModelPD : nat) :
  shrinkModelPD <> l_in ->
  spec input l_in pre (solidifyStage cancelDuring opts l_in shrinkModelPD) [Solidification] (fun _ => True).
Proof.
  intros Hl. unfold solidifyStage.
  eapply spec_weaken; [|auto|].
  - eapply spec_bind; [apply spec_checkCancel|]. intros _ _.
    eapply spec_bind; [apply spec_logCallback|]. intros _ _.
    eapply spec_bind; [apply spec_load|]. intros inp Hinp. rewrite (Hinp eq_refl).
    eapply spec_bind; [apply spec_load|]. intros work _.
    eapply spec_bind; [apply spec_store; exact Hl|]. intros _ _.
    eapply spec_bind; [apply spec_lift|]. intros solid _.
    eapply spec_bind; [apply spec_emit_stage|]. intros _ _.
    apply spec_alloc.
  - spec_incl.
Qed.

Lemma Body_finished (opts : Options) (seen : list Stage) (w : World) (r : Res unit) :
  r = Raised \/ r = Return ExitCancelled -> Body input l_in pre seen w -> Finished input l_in pre opts r w.
Proof.
  intros Hr (Hheap & t & Ht & Hall & _). split; [exact Hheap|].
  exists t, []. rewrite app_nil_r. split; [exact Ht|]. split; [exact Hall|].
  destruct Hr as [-> | ->]; reflexivity.
Qed.

Lemma terminal_bind {A : Type} (opts : Options) (m : M A) (f : A -> M unit)
    (add seen : list Stage) (Q : A -> Prop) :
  spec input l_in pre m add Q -> (forall a, Q a -> terminal input l_in pre opts (f a) (add ++ seen)) ->
  terminal input l_in pre opts (m ≫= f) seen.
Proof.
  intros Hm Hf w Hw. rewrite bind_run. specialize (Hm seen w Hw).
  destruct (m w) as [[a|e|] w']; simpl.
  - destruct Hm as [Hb Hq]. exact (Hf a Hq w' Hb).
  - destruct Hm as [-> Hb]. eapply Body_finished; eauto.
  - eapply Body_finished; eauto.
Qed.

Ltac finish_tail Ht :=
  simpl; rewrite <- ?app_assoc; simpl; rewrite Ht, <- app_assoc; reflexivity.

Lemma terminal_dispatch (opts : Options) (polydata : nat) (seen : list Stage) :
  (forall s, In s (stagesBefore (filterMode opts)) -> In s seen) ->
  filterMode opts <> MODE_NONMANIFOLD ->
  terminal input l_in pre opts (dispatch cancelDuring hasDisplayNode opts polydata) seen.
Proof.
  intros Hseen Hmode w (Hheap & t & Ht & Hall & Hin).
  unfold dispatch, polydataToSegment, polydataToModel, cleanup.
  destruct (String.eqb (outputType opts) OUTPUT_SEGMENTATION);
    [|destruct (String.eqb (outputType opts) OUTPUT_MODEL)];
    rewrite ?bind_run; simpl;
    try (destruct (cancelRequested w); rewrite ?bind_run; simpl);
    try (destruct hasDisplayNode; rewrite ?bind_run; simpl);
    (split; [exact Hheap|]);
    (eexists t, _; split; [finish_tail Ht|]);
    (split; [exact Hall|]);
    (split; [repeat constructor|]);
    (split; [intros s Hs; apply Hin, Hseen, Hs|]);
    intros Hnm; contradiction.
Qed.

Lemma terminal_dispatchNonmanifold (opts : Options) (polydata : nat) (seen : list Stage) :
  (forall s, In s (stagesBefore (filterMode opts)) -> In s seen) ->
  terminal input l_in pre opts (dispatchNonmanifold cancelDuring opts polydata) seen.
Proof.
  intros Hseen w (Hheap & t & Ht & Hall & Hin).
  unfold dispatchNonmanifold, polydataToModel, cleanup.
  destruct (String.eqb (outputType opts) OUTPUT_SEGMENTATION) eqn:Hseg;
    [|destruct (String.eqb (outputType opts) OUTPUT_MODEL)];
    rewrite ?bind_run; simpl;
    try (destruct (cancelRequested w); rewrite ?bind_run; simpl);
    (split; [exact Hheap|]);
    (eexists t, _; split; [finish_tail Ht|]);
    (split; [exact Hall|]);
    (split; [repeat constructor|]);
    (split; [intros s Hs; apply Hin, Hseen, Hs|]);
    intros _ Hout; try reflexivity;
    rewrite Hout in Hseg; discriminate.
Qed.

Lemma terminal_unknownMode (opts : Options) (seen : list Stage) :
  (forall s, In s (stagesBefore (filterMode opts)) -> In s seen) ->
  filterMode opts <> MODE_NONMANIFOLD ->
  terminal input l_in pre opts (emit (EvError ErrUnknownFilterMode) ;; exit ExitFailed) seen.
Proof.
  intros Hseen Hmode w (Hheap & t & Ht & Hall & Hin).
  rewrite bind_run. simpl. split; [exact Hheap|].
  eexists t, _. split; [finish_tail Ht|]. split; [exact Hall|].
  split; [repeat constructor|].
  split; [intros s Hs; apply Hin, Hseen, Hs|].
  intros Hnm. contradiction.
Qed.

Ltac mode_incl := let s := fresh "s" in
  intros s; unfold stagesBefore;
  repeat match goal with E : String.eqb _ _ = _ |- _ => rewrite E; clear E end;
  simpl; tauto.

Ltac mode_differs :=
  let Hnm := fresh "Hnm" in
  intros Hnm;
  repeat match goal with E : String.eqb _ _ = _ |- _ => rewrite Hnm in E end;
  vm_compute in *; congruence.

(** The stages end as [Finished] tells. *)
Lemma stages_finished (opts : Options) : terminal input l_in pre opts (stages cancelDuring hasDisplayNode opts l_in) [].
Proof.
  unfold stages.
  eapply terminal_bind; [apply spec_load|]. intros inp Hinp.
  eapply terminal_bind; [apply spec_alloc|]. intros shrinkModelPD Hl.
  eapply terminal_bind; [apply spec_firstPass; exact Hl|]. intros _ _.
  destruct (String.eqb (filterMode opts) MODE_CONVEXHULL) eqn:E1.
  { apply terminal_dispatch; [mode_incl|mode_differs]. }
  eapply terminal_bind; [apply spec_raycastStage; exact Hl|]. intros _ _.
  destruct (String.eqb (filterMode opts) MODE_RAYCASTS) eqn:E2.
  { apply terminal_dispatch; [mode_incl|mode_differs]. }
  eapply terminal_bind; [apply spec_secondPass; exact Hl|]. intros _ _.
  eapply terminal_bind; [apply spec_runStage; exact Hl|]. intros _ _.
  destruct (String.eqb (filterMode opts) MODE_DEEPHULL) eqn:E3.
  { apply terminal_dispatch; [mode_incl|mode_differs]. }
  eapply terminal_bind; [apply spec_capStage; exact Hl|]. intros _ _.
  destruct (String.eqb (filterMode opts) MODE_NONMANIFOLD) eqn:E4.
  { apply terminal_dispatchNonmanifold. mode_incl. }
  eapply terminal_bind; [apply spec_solidifyStage; exact Hl|]. intros solid _.
  destruct (String.eqb (filterMode opts) MODE_SOLIDIFIED) eqn:E5.
  { apply terminal_dispatch; [mode_incl|mode_differs]. }
  apply terminal_unknownMode; [mode_incl|mode_differs].
Qed.

End Stages.

(** ** The run: from the call to its return *)

Section RunProperties.

Context `{VTK}.
Variable cancelDuring : nat -> bool.
Variable hasDisplayNode : bool.
Variable inputSurface : PolyData.

Lemma run_finished (kwargs : Kwargs) :
  Finished inputSurface inputObject (preparation hasDisplayNode (make_options kwargs))
           (make_options kwargs)
           (fst (run cancelDuring hasDisplayNode inputSurface kwargs))
           (snd (run cancelDuring hasDisplayNode inputSurface kwargs)).
Proof.
  unfold run, ApplySRSFilter.
  rewrite bind_run. simpl. rewrite bind_run. simpl. rewrite bind_run.
  unfold prepareNode.
  assert (Hbody : forall w,
            heap w = {[ inputObject := inputSurface ]} ->
            trace w = preparation hasDisplayNode (make_options kwargs) ->
            Body inputSurface inputObject
                 (preparation hasDisplayNode (make_options kwargs)) [] w).
  { intros w Hh Ht. split; [rewrite Hh; apply lookup_singleton_eq|].
    exists []. rewrite app_nil_r. split; [exact Ht|]. split; [constructor|intros s []]. }
  destruct hasDisplayNode; rewrite ?bind_run; simpl;
    apply (stages_finished cancelDuring _ inputSurface inputObject);
    apply Hbody; reflexivity.
Qed.

Lemma bodyEvent_quiet (input : PolyData) (t : list Event) :
  Forall (bodyEvent input) t ->
  Forall (fun e => isCommit e = false) t /\ nodeOps t = [] /\
  (forall err, ~ In (EvError err) t) /\
  (forall s pd, In (EvStage s pd) t -> pd = input).
Proof.
  induction 1 as [|e t He _ (IH1 & IH2 & IH3 & IH4)].
  - repeat split; [constructor|intros err []|intros s pd []].
  - destruct e; simpl in He; try contradiction.
    + repeat split; [constructor; [reflexivity|exact IH1]|exact IH2| |].
      * intros err [Heq|Hin]; [discriminate|exact (IH3 err Hin)].
      * intros s pd [Heq|Hin]; [discriminate|exact (IH4 s pd Hin)].
    + repeat split; [constructor; [reflexivity|exact IH1]|exact IH2| |].
      * intros err [Heq|Hin]; [discriminate|exact (IH3 err Hin)].
      * intros s' pd [Heq|Hin]; [injection Heq as _ <-; exact He|exact (IH4 s' pd Hin)].
Qed.

Lemma preparation_quiet (opts : Options) :
  Forall (fun e => isCommit e = false) (preparation hasDisplayNode opts) /\
  (forall err, ~ In (EvError err) (preparation hasDisplayNode opts)) /\
  (forall s pd, ~ In (EvStage s pd) (preparation hasDisplayNode opts)).
Proof.
  unfold preparation. destruct hasDisplayNode; simpl;
    (split; [repeat constructor|]); split; intros; intuition discriminate.
Qed.


(** C9. In every run, whatever the options, the cancellation requests and
    the VTK filters, each stage computation saw the input surface as it was
    fetched at the start, and at the end of the run the object
    [inputPolyData] still holds that mesh. *)
Theorem input_surface_unchanged (kwargs : Kwargs) (s : Stage) (pd : PolyData) :
  let out := run cancelDuring hasDisplayNode inputSurface kwargs in
  (In (EvStage s pd) (trace (snd out)) -> pd = inputSurface) /\
  heap (snd out) !! inputObject = Some inputSurface.
Proof.
  intros out. subst out.
  destruct (run_finished kwargs) as (Hheap & t & d & Ht & Hall & Hr).
  split; [|exact Hheap].
  rewrite Ht. intros Hin.
  apply in_app_or in Hin as [Hin|Hin].
  { exfalso. exact (proj2 (proj2 (preparation_quiet _)) s pd Hin). }
  apply in_app_or in Hin as [Hin|Hin].
  { exact (proj2 (proj2 (proj2 (bodyEvent_quiet _ _ Hall))) s pd Hin). }
  exfalso.
  destruct (fst (run cancelDuring hasDisplayNode inputSurface kwargs)) as [a|e|].
  - exact Hr.
  - assert (Htail : Forall tailEvent d \/ d = []).
    { destruct e; [right; exact Hr|left; apply Hr|left; apply Hr]. }
    destruct Htail as [Htail| ->]; [|exact Hin].
    rewrite List.Forall_forall in Htail. exact (Htail _ Hin).
  - subst d. exact Hin.
Qed.


(** C1, as the code has it. With filterMode NONMANIFOLD and outputType
    SEGMENTATION no run commits an output. The combination is not checked
    before the stages: its error is logged at the dispatch that follows cap
    removal, after the subdivision, raycast, smoothing and cap-removal
    computations, and it is logged in every run that is neither cancelled at
    a check of the stages nor aborted by an exception. *)
Theorem nonmanifold_segmentation_run (kwargs : Kwargs) :
  kw_filterMode kwargs = Some MODE_NONMANIFOLD ->
  kw_outputType kwargs = Some OUTPUT_SEGMENTATION ->
  let out := run cancelDuring hasDisplayNode inputSurface kwargs in
  Forall (fun e => isCommit e = false) (trace (snd out)) /\
  (In (EvError ErrSegmentationNotPossible) (trace (snd out)) ->
   exists before,
     trace (snd out) = before ++ [EvError ErrSegmentationNotPossible; EvLog MsgNone] /\
     forall s, In s [Subdivide; Raycast; Smoothing; RemoveCaps] ->
               In (EvStage s inputSurface) before) /\
  (fst out <> Raised -> fst out <> Return ExitCancelled ->
   In (EvError ErrSegmentationNotPossible) (trace (snd out))).
Proof.
  intros Hmode Hout out. subst out.
  assert (Hm : filterMode (make_options kwargs) = MODE_NONMANIFOLD)
    by (unfold make_options; simpl; rewrite Hmode; reflexivity).
  assert (Ho : outputType (make_options kwargs) = OUTPUT_SEGMENTATION)
    by (unfold make_options; simpl; rewrite Hout; reflexivity).
  destruct (run_finished kwargs) as (_ & t & d & Ht & Hall & Hr).
  destruct (bodyEvent_quiet _ _ Hall) as (Hc & _ & Herr & _).
  destruct (preparation_quiet (make_options kwargs)) as (Hpc & Hperr & _).
  assert (Hquiet : d = [] ->
    Forall (fun e => isCommit e = false) (trace (snd (run cancelDuring hasDisplayNode inputSurface kwargs))) /\
    ~ In (EvError ErrSegmentationNotPossible)
         (trace (snd (run cancelDuring hasDisplayNode inputSurface kwargs)))).
  { intros ->. rewrite Ht, app_nil_r. split.
    - apply Forall_app. split; assumption.
    - intros Hin. apply in_app_or in Hin as [Hin|Hin]; [exact (Hperr _ Hin)|exact (Herr _ Hin)]. }
  assert (Hlate : d = [EvError ErrSegmentationNotPossible; EvLog MsgNone] ->
    (forall s, In s (stagesBefore (filterMode (make_options kwargs))) ->
               In (EvStage s inputSurface) t) ->
    Forall (fun e => isCommit e = false) (trace (snd (run cancelDuring hasDisplayNode inputSurface kwargs))) /\
    (exists before,
       trace (snd (run cancelDuring hasDisplayNode inputSurface kwargs))
         = before ++ [EvError ErrSegmentationNotPossible; EvLog MsgNone] /\
       forall s, In s [Subdivide; Raycast; Smoothing; RemoveCaps] ->
                 In (EvStage s inputSurface) before) /\
    In (EvError ErrSegmentationNotPossible)
       (trace (snd (run cancelDuring hasDisplayNode inputSurface kwargs)))).
  { intros -> Hseen. rewrite Ht. split; [|split].
    - apply Forall_app. split; [assumption|].
      apply Forall_app. split; [assumption|repeat constructor].
    - exists (preparation hasDisplayNode (make_options kwargs) ++ t).
      split; [rewrite app_assoc; reflexivity|].
      intros s Hs. apply in_or_app. right. apply Hseen. rewrite Hm. exact Hs.
    - apply in_or_app. right. apply in_or_app. right. left. reflexivity. }
  destruct (fst (run cancelDuring hasDisplayNode inputSurface kwargs)) as [a|e|].
  - contradiction.
  - destruct e.
    + destruct (Hquiet Hr) as [Hq1 Hq2]. split; [exact Hq1|]. split; [tauto|congruence].
    + destruct Hr as (_ & Hseen & Hd). destruct (Hlate (Hd Hm Ho) Hseen) as (H1 & H2 & H3).
      split; [exact H1|]. split; [intros _; exact H2|intros _ _; exact H3].
    + destruct Hr as (_ & Hseen & Hd). destruct (Hlate (Hd Hm Ho) Hseen) as (H1 & H2 & H3).
      split; [exact H1|]. split; [intros _; exact H2|intros _ _; exact H3].
  - destruct (Hquiet Hr) as [Hq1 Hq2]. split; [exact Hq1|]. split; [tauto|congruence].
Qed.

End RunProperties.

(** Line 331: a request left over from an earlier run is forgotten. *)
Lemma ApplySRSFilter_resets_flag `{VTK} (cancelDuring : nat -> bool) (hasDisplayNode : bool)
    (inputSurface : PolyData) (kwargs : Kwargs) (previous : bool) :
  ApplySRSFilter cancelDuring hasDisplayNode inputSurface kwargs (initialWorld previous)
  = run cancelDuring hasDisplayNode inputSurface kwargs.
Proof. reflexivity. Qed.

(** The state in which the stages start. *)
Lemma run_stages `{VTK} (cancelDuring : nat -> bool) (hasDisplayNode : bool)
    (inputSurface : PolyData) (kwargs : Kwargs) :
  run cancelDuring hasDisplayNode inputSurface kwargs
  = stages cancelDuring hasDisplayNode (make_options kwargs) inputObject
      (mkWorld {[ inputObject := inputSurface ]} (cancelDuring 0%nat) 1
               (preparation hasDisplayNode (make_options kwargs))).
Proof.
  unfold run, ApplySRSFilter, prepareNode. destruct hasDisplayNode; reflexivity.
Qed.

Lemma checkCancel_requested (cancelDuring : nat -> bool) (w : World) :
  cancelRequested w = true ->
  checkCancel cancelDuring w
  = (Return ExitCancelled,
     mkWorld (heap w) (cancelRequested w || cancelDuring (ticks w)) (S (ticks w))
             (trace w ++ [EvLog MsgNone])).
Proof.
  intros Hc. unfold checkCancel. rewrite bind_run.
  unfold getCancelRequested. cbv beta iota. rewrite Hc.
  rewrite bind_run. unfold cleanup, logCallback. cbv beta iota. rewrite Hc. reflexivity.
Qed.

(** X23. A request made while the first message is shown is seen by the first
    check of the first shrinkwrap pass, before any stage: the node has been
    prepared by then. *)
Lemma cancel_at_start `{VTK} (cancelDuring : nat -> bool) (hasDisplayNode : bool)
    (inputSurface : PolyData) (kwargs : Kwargs) :
  cancelDuring 0%nat = true ->
  1 <= iterationsFirstShrinkwrap (make_options kwargs) ->
  let out := run cancelDuring hasDisplayNode inputSurface kwargs in
  fst out = Return ExitCancelled /\
  trace (snd out) = preparation hasDisplayNode (make_options kwargs) ++ [EvLog MsgNone].
Proof.
  intros Hc Hn out. subst out.
  assert (Hrun : exists heap' flag,
            run cancelDuring hasDisplayNode inputSurface kwargs
            = (Return ExitCancelled,
               mkWorld heap' flag 2
                       (preparation hasDisplayNode (make_options kwargs) ++ [EvLog MsgNone]))).
  { rewrite run_stages. unfold stages.
    destruct (Z.to_nat (iterationsFirstShrinkwrap (make_options kwargs))) as [|n] eqn:Hiter;
      [lia|].
    rewrite bind_run. unfold load at 1. cbv beta iota.
    rewrite bind_run. unfold alloc at 1. cbv beta iota.
    rewrite bind_run. cbn [seq firstPass].
    rewrite bind_run, checkCancel_requested by exact Hc.
    eexists _, _. reflexivity. }
  destruct Hrun as (heap' & flag & ->). split; reflexivity.
Qed.



(** A request made while the last first-pass message is shown is seen by
    the check of [polydataToModel] only: no model is added, and the run
    returns True. *)
Lemma cancel_seen_by_dispatch :
  let out := run (fun k => Nat.eqb k 1) true tetra (kwShort OUTPUT_MODEL MODE_CONVEXHULL) in
  fst out = Return ExitDone /\
  forallb (fun e => negb (isCommit e)) (trace (snd out)) = true /\
  cancelRequested (snd out) = true.
Proof. repeat split; vm_compute; reflexivity. Qed.

(** A run of that combination on the tetrahedron commits nothing. *)
Lemma nonmanifold_segmentation_run_witness :
  Forall (fun e => isCommit e = false)
         (trace (snd (run neverCancel true tetra
                          (kwShort OUTPUT_SEGMENTATION MODE_NONMANIFOLD)))).
Proof.
  destruct (nonmanifold_segmentation_run neverCancel true tetra
              (kwShort OUTPUT_SEGMENTATION MODE_NONMANIFOLD) eq_refl eq_refl) as (Hc & _).
  exact Hc.
Defined.

(** C1 as stated fails. With filterMode NONMANIFOLD and outputType
    SEGMENTATION, a run that is not cancelled computes the first shrinkwrap,
    the subdivision, the raycast, the remesh, the smoothing and the cap
    removal, and returns True. *)
Lemma nonmanifold_segmentation_counterexample :
  let out := run neverCancel true tetra (kwShort OUTPUT_SEGMENTATION MODE_NONMANIFOLD) in
  fst out = Return ExitDone /\
  retval ExitDone = true /\
  stagesRun (trace (snd out))
  = [FirstShrinkwrap; Subdivide; Raycast; Remesh; Smoothing; RemoveCaps].
Proof. repeat split; vm_compute; reflexivity. Qed.

(** ** The run: how statements execute *)

Lemma bind_load {B : Type} (l : nat) (f : PolyData -> M B) (w : World) :
  (load l ≫= f) w = f (default emptyPolyData (heap w !! l)) w.
Proof. reflexivity. Qed.

Lemma bind_alloc {B : Type} (pd : PolyData) (f : nat -> M B) (w : World) :
  (alloc pd ≫= f) w
  = f (fresh (dom (heap w)))
      (mkWorld (<[fresh (dom (heap w)) := pd]> (heap w)) (cancelRequested w) (ticks w) (trace w)).
Proof. reflexivity. Qed.

Lemma bind_store {B : Type} (l : nat) (pd : PolyData) (f : unit -> M B) (w : World) :
  (store l pd ≫= f) w
  = f tt (mkWorld (<[l := pd]> (heap w)) (cancelRequested w) (ticks w) (trace w)).
Proof. reflexivity. Qed.

Lemma bind_emit {B : Type} (e : Event) (f : unit -> M B) (w : World) :
  (emit e ≫= f) w
  = f tt (mkWorld (heap w) (cancelRequested w) (ticks w) (trace w ++ [e])).
Proof. reflexivity. Qed.

Lemma bind_lift {A B : Type} (a : A) (f : A -> M B) (w : World) :
  (lift (Some a) ≫= f) w = f a w.
Proof. reflexivity. Qed.

Lemma bind_logCallback {B : Type} (cancelDuring : nat -> bool) (m : Msg) (f : unit -> M B)
    (w : World) :
  (logCallback cancelDuring m ≫= f) w
  = f tt (mkWorld (heap w) (cancelRequested w || cancelDuring (ticks w)) (S (ticks w))
                  (trace w ++ [EvLog m])).
Proof. reflexivity. Qed.

Lemma bind_checkCancel {B : Type} (cancelDuring : nat -> bool) (f : unit -> M B) (w : World) :
  cancelRequested w = false ->
  (checkCancel cancelDuring ≫= f) w = f tt w.
Proof.
  intros Hc. rewrite bind_run. unfold checkCancel. rewrite bind_run.
  unfold getCancelRequested. cbv beta iota. rewrite Hc. reflexivity.
Qed.

Ltac msimpl :=
  cbv beta; cbn [heap cancelRequested ticks trace fst snd default from_option id].

(** X9. In a run: when no cancellation is requested and the gate of line 634 is
    closed, the raycast stage goes on and leaves in [shrinkModelPD] the
    subdivided and cleaned mesh. *)
Lemma raycastStage_gate_closed `{VTK} (cancelDuring : nat -> bool) (opts : Options)
    (inputPolyData shrinkModelPD : nat) (w : World)
    (work : PolyData) (largeCellIds : list nat) (largeCellsPolyData subdivided : PolyData) :
  heap w !! shrinkModelPD = Some work ->
  cancelRequested w = false -> cancelDuring (ticks w) = false ->
  raycastPrepare opts work = Some (largeCellIds, largeCellsPolyData, subdivided) ->
  largeCellIds = [] \/ fgt (raycastMaxLength opts) 0 = false ->
  exists w',
    raycastStage cancelDuring opts inputPolyData shrinkModelPD w = (Continue tt, w') /\
    heap w' !! shrinkModelPD = Some subdivided.
Proof.
  intros Hwork Hflag Hquiet Hprep Hgate.
  assert (Hfresh : fresh (dom (heap w)) <> shrinkModelPD).
  { intros Heq. apply (is_fresh (dom (heap w))). rewrite Heq. apply elem_of_dom. eauto. }
  unfold raycastStage.
  rewrite bind_checkCancel by exact Hflag.
  rewrite bind_logCallback; msimpl. rewrite bind_load; msimpl. rewrite bind_load; msimpl.
  rewrite Hwork; msimpl. rewrite Hprep, bind_lift; msimpl.
  rewrite bind_alloc; msimpl. rewrite bind_emit; msimpl. rewrite bind_store; msimpl.
  rewrite bind_checkCancel by (msimpl; rewrite Hflag, Hquiet; reflexivity).
  rewrite bind_load; msimpl.
  unfold runStage. rewrite bind_load; msimpl. rewrite bind_load; msimpl.
  rewrite lookup_insert_eq; msimpl.
  rewrite (lookup_insert_ne _ shrinkModelPD (fresh (dom (heap w)))) by congruence.
  rewrite lookup_insert_eq; msimpl.
  rewrite raycastProject_closed by exact Hgate.
  rewrite bind_lift; msimpl. rewrite bind_emit; msimpl.
  eexists. split; [reflexivity|]. msimpl. apply lookup_insert_eq.
Qed.

(** ** Raycast stage: finding and extracting the large cells *)

Lemma isLargeCell_None (searchEdgeLength : float) (pts : list vec3) (c : Cell) :
  isLargeCell searchEdgeLength pts c = None <-> (length (pointIds c) < 2)%nat.
Proof.
  unfold isLargeCell, edgeLength, cellPoints. rewrite length_map.
  destruct (pointIds c) as [|a [|b rest]]; simpl; split; intros Hc;
    try reflexivity; try lia; try discriminate.
Qed.

Lemma largeCellsFrom_None (searchEdgeLength : float) (pts : list vec3)
    (cells : list Cell) (k : nat) :
  largeCellsFrom searchEdgeLength pts cells k = None
  <-> Exists (fun c => (length (pointIds c) < 2)%nat) cells.
Proof.
  revert k. induction cells as [|c cells IH]; intros k; simpl.
  - split; [discriminate|]. intros Hex. inversion Hex.
  - rewrite Exists_cons, <- (IH (S k)), <- (isLargeCell_None searchEdgeLength pts c).
    destruct (isLargeCell searchEdgeLength pts c) as [b|]; simpl.
    + destruct (largeCellsFrom searchEdgeLength pts cells (S k)); simpl.
      * split; [discriminate|]. intros [?|?]; discriminate.
      * split; auto.
    + split; auto.
Qed.

Lemma largeCellsFrom_Some (searchEdgeLength : float) (pts : list vec3)
    (cells : list Cell) (k : nat) (ids : list nat) :
  largeCellsFrom searchEdgeLength pts cells k = Some ids ->
  ids = map fst (List.filter (fun p => isFlagged searchEdgeLength pts (snd p))
                             (combine (seq k (length cells)) cells)).
Proof.
  revert k ids. induction cells as [|c cells IH]; intros k ids; simpl.
  - intros [= <-]. reflexivity.
  - destruct (isLargeCell searchEdgeLength pts c) as [b|] eqn:Hb; simpl; [|discriminate].
    destruct (largeCellsFrom searchEdgeLength pts cells (S k)) as [rest|] eqn:Hrest;
      simpl; [|discriminate].
    intros [= <-]. apply IH in Hrest. unfold isFlagged at 1. simpl. rewrite Hb.
    destruct b; simpl; rewrite <- Hrest; reflexivity.
Qed.

Lemma flagged_ids_sublist {A : Type} (q : nat * A -> bool) (l : list A) (k : nat) :
  map fst (List.filter q (combine (seq k (length l)) l)) `sublist_of` seq k (length l).
Proof.
  revert k. induction l as [|x l IH]; intros k; simpl; [constructor|].
  destruct (q (k, x)); simpl; [apply sublist_skip|apply sublist_cons]; apply IH.
Qed.

Lemma flagged_ids_elem {A : Type} (q : A -> bool) (l : list A) (k i : nat) :
  i ∈ map fst (List.filter (fun p => q (snd p)) (combine (seq k (length l)) l))
  <-> exists x, (k <= i)%nat /\ l !! (i - k)%nat = Some x /\ q x = true.
Proof.
  revert k. induction l as [|x l IH]; intros k; simpl.
  - split; [intros Hi; inversion Hi|]. intros (x & _ & Hx & _). discriminate.
  - destruct (q x) eqn:Hq; simpl; rewrite ?elem_of_cons, IH; split.
    + intros [->|(y & Hk & Hy & Hqy)].
      * exists x. rewrite Nat.sub_diag. auto.
      * exists y. split; [lia|]. split; [|exact Hqy].
        replace (i - k)%nat with (S (i - S k)) by lia. exact Hy.
    + intros (y & Hk & Hy & Hqy). destruct (decide (i = k)) as [->|Hne]; [left; reflexivity|].
      right. exists y. split; [lia|]. split; [|exact Hqy].
      replace (i - k)%nat with (S (i - S k)) in Hy by lia. exact Hy.
    + intros (y & Hk & Hy & Hqy). exists y. split; [lia|]. split; [|exact Hqy].
      replace (i - k)%nat with (S (i - S k)) by lia. exact Hy.
    + intros (y & Hk & Hy & Hqy). destruct (decide (i = k)) as [->|Hne].
      * rewrite Nat.sub_diag in Hy. simpl in Hy. injection Hy as <-. congruence.
      * exists y. split; [lia|]. split; [|exact Hqy].
        replace (i - k)%nat with (S (i - S k)) in Hy by lia. exact Hy.
Qed.

Lemma flagged_ids_length {A : Type} (q : A -> bool) (l : list A) (k : nat) :
  length (map fst (List.filter (fun p => q (snd p)) (combine (seq k (length l)) l)))
  = length (List.filter q l).
Proof.
  revert k. induction l as [|x l IH]; intros k; simpl; [reflexivity|].
  destruct (q x); simpl; rewrite IH; reflexivity.
Qed.

Lemma extract_marks (n : nat) (ids : list nat) (s : nat) (d : gset nat) (c : nat) :
  c ∈ fold_left (fun (d : gset nat) (c : nat) =>
                   if bool_decide (c ∈ ids) then d else DeleteCell d c) (seq s n) d
  <-> c ∈ d \/ ((s <= c < s + n)%nat /\ c ∉ ids).
Proof.
  revert s d. induction n as [|n IH]; intros s d; simpl.
  - split; [auto|]. intros [?|[? _]]; [assumption|lia].
  - rewrite IH. case_bool_decide as Hs.
    + split.
      * intros [?|[? ?]]; [left; assumption|right; split; [lia|assumption]].
      * intros [?|[Hr Hc]]; [left; assumption|].
        destruct (decide (c = s)) as [->|?]; [contradiction|right; split; [lia|exact Hc]].
    + unfold DeleteCell. rewrite elem_of_union, elem_of_singleton. split.
      * intros [[->|?]|[? ?]];
          [right; split; [lia|exact Hs]|left; assumption|right; split; [lia|assumption]].
      * intros [?|[Hr Hc]]; [left; right; assumption|].
        destruct (decide (c = s)) as [->|?]; [left; left; reflexivity|right; split; [lia|exact Hc]].
Qed.

(** X1. The search for large faces raises (the [max] of an empty list)
    exactly when some cell of the working mesh has fewer than two points;
    the stage then does nothing further. *)
Theorem large_face_search_raises `{VTK} (opts : Options) (shrinkModelPD : PolyData) :
  (findLargeCells (raycastSearchEdgeLength opts) shrinkModelPD = None
   <-> exists c, c ∈ Cells shrinkModelPD /\ (length (pointIds c) < 2)%nat) /\
  (raycastPrepare opts shrinkModelPD = None
   <-> exists c, c ∈ Cells shrinkModelPD /\ (length (pointIds c) < 2)%nat).
Proof.
  assert (Hfind : findLargeCells (raycastSearchEdgeLength opts) shrinkModelPD = None
                  <-> exists c, c ∈ Cells shrinkModelPD /\ (length (pointIds c) < 2)%nat).
  { unfold findLargeCells. rewrite largeCellsFrom_None, Exists_exists. reflexivity. }
  split; [exact Hfind|]. rewrite <- Hfind. unfold raycastPrepare.
  destruct (findLargeCells _ _); simpl; split; congruence.
Qed.

(** X2. When the search returns, the ids it lists are, in increasing order,
    those of the cells whose longest measured edge exceeds the search edge
    length, and the copy [largeCellsPolyData] holds exactly these cells, in
    their order, over the same points. *)
Theorem large_cells_extracted `{VTK} (opts : Options) (shrinkModelPD : PolyData)
    (largeCellIds : list nat) (largeCellsPolyData subdivided : PolyData) :
  raycastPrepare opts shrinkModelPD = Some (largeCellIds, largeCellsPolyData, subdivided) ->
  largeCellIds `sublist_of` seq 0 (length (Cells shrinkModelPD)) /\
  (forall i, i ∈ largeCellIds <->
             exists c, Cells shrinkModelPD !! i = Some c /\
                       isLargeCell (raycastSearchEdgeLength opts) (Points shrinkModelPD) c
                       = Some true) /\
  Cells largeCellsPolyData
  = List.filter (isFlagged (raycastSearchEdgeLength opts) (Points shrinkModelPD))
                (Cells shrinkModelPD) /\
  Points largeCellsPolyData = Points shrinkModelPD /\
  length (Cells largeCellsPolyData) = length largeCellIds.
Proof.
  unfold raycastPrepare, findLargeCells.
  destruct (largeCellsFrom _ _ _ _) as [ids|] eqn:Hids; simpl; [|discriminate].
  intros [= <- <- <-]. apply largeCellsFrom_Some in Hids.
  assert (Helem : forall i, i ∈ ids <->
            exists c, Cells shrinkModelPD !! i = Some c /\
                      isFlagged (raycastSearchEdgeLength opts) (Points shrinkModelPD) c = true).
  { intros i. rewrite Hids, flagged_ids_elem. rewrite Nat.sub_0_r. split.
    - intros (c & _ & Hc & Hq). eauto.
    - intros (c & Hc & Hq). exists c. split; [lia|]. auto. }
  assert (Hcells : Cells (extractLargeCells shrinkModelPD ids)
                   = List.filter (isFlagged (raycastSearchEdgeLength opts) (Points shrinkModelPD))
                                 (Cells shrinkModelPD)).
  { unfold extractLargeCells, RemoveDeletedCells. simpl.
    apply filter_idx_filter. intros i c Hc.
    destruct (isFlagged _ _ c) eqn:Hq.
    - apply negb_true_iff, bool_decide_eq_false_2. rewrite extract_marks.
      intros [Hin|[_ Hnot]]; [set_solver|]. apply Hnot, Helem. eauto.
    - apply negb_false_iff, bool_decide_eq_true_2. rewrite extract_marks. right.
      split; [apply lookup_lt_Some in Hc; unfold GetNumberOfCells; lia|].
      intros Hin. apply Helem in Hin as (c' & Hc' & Hq'). congruence. }
  split; [rewrite Hids; apply flagged_ids_sublist|].
  split.
  { intros i. rewrite Helem. unfold isFlagged. split; intros (c & Hc & Hq); exists c;
      (split; [exact Hc|]); destruct (isLargeCell _ _ c) as [[|]|]; congruence. }
  split; [exact Hcells|]. split; [reflexivity|].
  rewrite Hcells, Hids. symmetry. apply flagged_ids_length.
Qed.

(** The isosceles triangle with a search edge length of 4.5: its two
    measured sides of length 5 flag it, and it is the one large cell. *)
Lemma large_cells_extracted_witness :
  [0%nat] `sublist_of` seq 0 (length (Cells isosceles)) /\
  Cells (extractLargeCells isosceles [0%nat])
  = List.filter (isFlagged 4.5%float (Points isosceles)) (Cells isosceles).
Proof.
  destruct (large_cells_extracted (make_options kwSearch) isosceles [0%nat]
              (extractLargeCells isosceles [0%nat]) isosceles)
    as (Hsub & _ & Hcells & _).
  - vm_compute. reflexivity.
  - split; [exact Hsub|exact Hcells].
Defined.

(** ** Raycast stage: the points near the large faces *)

Lemma findLargePoints_fold `{VTK} (largeCellsPolyData : PolyData) (pts : list vec3)
    (n s : nat) (d : gset nat) (p : nat) :
  p ∈ fold_left (fun (s : gset nat) (p : nat) =>
                   if (PrimFloat.abs (EvaluateFunction largeCellsPolyData (GetPoint pts p)) <? 1)%float
                   then {[ p ]} ∪ s else s) (seq s n) d
  <-> p ∈ d \/ ((s <= p < s + n)%nat /\
               (PrimFloat.abs (EvaluateFunction largeCellsPolyData (GetPoint pts p)) <? 1)%float
               = true).
Proof.
  revert s d. induction n as [|n IH]; intros s d; simpl.
  - split; [auto|]. intros [?|[? _]]; [assumption|lia].
  - rewrite IH.
    destruct (PrimFloat.abs (EvaluateFunction largeCellsPolyData (GetPoint pts s)) <? 1)%float
      eqn:Hs.
    + rewrite elem_of_union, elem_of_singleton. split.
      * intros [[->|?]|[? ?]];
          [right; split; [lia|exact Hs]|left; assumption|right; split; [lia|assumption]].
      * intros [?|[Hr Hc]]; [left; right; assumption|].
        destruct (decide (p = s)) as [->|?];
          [left; left; reflexivity|right; split; [lia|exact Hc]].
    + split.
      * intros [?|[? ?]]; [left; assumption|right; split; [lia|assumption]].
      * intros [?|[Hr Hc]]; [left; assumption|].
        destruct (decide (p = s)) as [->|?]; [congruence|right; split; [lia|exact Hc]].
Qed.

(** X4. The points that may be projected are exactly those of the
    subdivided mesh whose signed distance to the large faces, found before
    the subdivision, is below 1 in absolute value; a NaN distance keeps a
    point out. *)
Theorem findLargePoints_spec `{VTK} (largeCellsPolyData : PolyData) (pts : list vec3)
    (p : nat) :
  p ∈ findLargePoints largeCellsPolyData pts
  <-> (p < length pts)%nat /\
      (PrimFloat.abs (EvaluateFunction largeCellsPolyData (GetPoint pts p)) <? 1)%float = true.
Proof.
  unfold findLargePoints. rewrite findLargePoints_fold. split.
  - intros [Hin|[Hr Hd]]; [set_solver|]. split; [lia|exact Hd].
  - intros [Hr Hd]. right. split; [lia|exact Hd].
Qed.

(** ** Raycast stage: the dictionary of projection results *)

Section Projection.

Context `{VTK}.
Variable inputPolyData : PolyData.
Variable maxLength : float.
Variable largePointIds : gset nat.
Variable pd : PolyData.

Lemma projectPoint_lookup (dict : gmap nat Hit) (q p : nat) :
  (forall k hk, dict !! k = Some hk -> entryOf inputPolyData maxLength largePointIds pd k hk) ->
  (is_Some (projectPoint inputPolyData maxLength largePointIds pd dict q !! p)
   <-> p = q \/ is_Some (dict !! p)) /\
  (forall h, projectPoint inputPolyData maxLength largePointIds pd dict q !! p = Some h ->
             entryOf inputPolyData maxLength largePointIds pd p h).
Proof.
  intros Hinv.
  assert (Hq : exists hq, projectPoint inputPolyData maxLength largePointIds pd dict q
                          = <[q := hq]> dict /\ entryOf inputPolyData maxLength largePointIds pd q hq).
  { unfold projectPoint. destruct (decide (q ∈ largePointIds)) as [Hin|Hout].
    - rewrite bool_decide_eq_true_2 by exact Hin. simpl.
      destruct (dict !! q) as [h0|] eqn:Hh0.
      + destruct (hit_res h0) eqn:Hres; simpl.
        * eexists. split; [reflexivity|]. split; [contradiction|]. auto.
        * exists noHit. split; [reflexivity|]. split; [reflexivity|]. intros _.
          destruct (Hinv q h0 Hh0) as [_ Hcand]. destruct (Hcand Hin) as [Heq _].
          split; [rewrite <- Heq, Hres; reflexivity|intros [=]].
      + eexists. split; [reflexivity|]. split; [contradiction|]. auto.
    - rewrite bool_decide_eq_false_2 by exact Hout. simpl.
      exists noHit. split; [reflexivity|]. split; [reflexivity|contradiction]. }
  destruct Hq as (hq & -> & Hhq). split.
  - destruct (decide (p = q)) as [->|Hne].
    + rewrite lookup_insert_eq. split; [auto|eauto].
    + rewrite lookup_insert_ne by congruence. split; [auto|]. intros [?|?]; [congruence|assumption].
  - intros h. destruct (decide (p = q)) as [->|Hne].
    + rewrite lookup_insert_eq. intros [= <-]. exact Hhq.
    + rewrite lookup_insert_ne by congruence. apply Hinv.
Qed.

Lemma projectCell_lookup (dict : gmap nat Hit) (c : Cell) (p : nat) :
  (forall k hk, dict !! k = Some hk -> entryOf inputPolyData maxLength largePointIds pd k hk) ->
  (is_Some (projectCell inputPolyData maxLength largePointIds pd dict c !! p)
   <-> (cellType c = VTK_TRIANGLE /\ p ∈ pointIds c) \/ is_Some (dict !! p)) /\
  (forall k hk, projectCell inputPolyData maxLength largePointIds pd dict c !! k = Some hk ->
                entryOf inputPolyData maxLength largePointIds pd k hk).
Proof.
  unfold projectCell. destruct (Z.eqb_spec (cellType c) VTK_TRIANGLE) as [Ht|Ht].
  - generalize (pointIds c). intros ids. revert dict.
    induction ids as [|q ids IH]; intros dict Hinv; simpl.
    + split; [|exact Hinv]. split; [auto|]. intros [[_ Hp]|?]; [inversion Hp|assumption].
    + destruct (IH (projectPoint inputPolyData maxLength largePointIds pd dict q)) as [Hdom Hent].
      { intros k hk. apply (projectPoint_lookup dict q k Hinv). }
      split; [|exact Hent]. rewrite Hdom, elem_of_cons.
      rewrite (proj1 (projectPoint_lookup dict q p Hinv)). tauto.
  - intros Hinv. split; [|exact Hinv]. tauto.
Qed.

Lemma projection_lookup (cells : list Cell) (dict : gmap nat Hit) (p : nat) :
  (forall k hk, dict !! k = Some hk -> entryOf inputPolyData maxLength largePointIds pd k hk) ->
  (is_Some (fold_left (projectCell inputPolyData maxLength largePointIds pd) cells dict !! p)
   <-> (exists c, c ∈ cells /\ cellType c = VTK_TRIANGLE /\ p ∈ pointIds c)
       \/ is_Some (dict !! p)) /\
  (forall k hk,
     fold_left (projectCell inputPolyData maxLength largePointIds pd) cells dict !! k = Some hk ->
     entryOf inputPolyData maxLength largePointIds pd k hk).
Proof.
  revert dict. induction cells as [|c cells IH]; intros dict Hinv; simpl.
  - split; [|exact Hinv]. split; [auto|]. intros [(c & Hc & _)|?]; [inversion Hc|assumption].
  - destruct (IH (projectCell inputPolyData maxLength largePointIds pd dict c)) as [Hdom Hent].
    { apply (projectCell_lookup dict c p Hinv). }
    split; [|exact Hent]. rewrite Hdom.
    rewrite (proj1 (projectCell_lookup dict c p Hinv)). split.
    + intros [(c' & Hc' & Hr)|[[Ht Hp]|Hd]].
      * left. exists c'. split; [right; exact Hc'|exact Hr].
      * left. exists c. split; [left|]. auto.
      * right. exact Hd.
    + intros [(c' & Hc' & Ht & Hp)|Hd]; [|auto].
      apply elem_of_cons in Hc' as [->|Hc']; [auto|]. left. exists c'. auto.
Qed.

Lemma projection_start (k : nat) (hk : Hit) :
  (∅ : gmap nat Hit) !! k = Some hk -> entryOf inputPolyData maxLength largePointIds pd k hk.
Proof. rewrite lookup_empty. discriminate. Qed.

Lemma projection_dom (p : nat) :
  is_Some (projection inputPolyData maxLength largePointIds pd !! p) <-> inTriangle pd p.
Proof.
  unfold projection, inTriangle.
  rewrite (proj1 (projection_lookup (Cells pd) ∅ p projection_start)).
  rewrite lookup_empty. split; [|auto]. intros [?|[? ?]]; [assumption|discriminate].
Qed.

(** X5. The dictionary of projection results has an entry exactly for the
    points of the triangles of the mesh; a point that only other kinds of
    cell use, or that no cell uses, has none. *)
Theorem projection_has_entry (p : nat) :
  is_Some (projection inputPolyData maxLength largePointIds pd !! p)
  <-> exists c, c ∈ Cells pd /\ cellType c = VTK_TRIANGLE /\ p ∈ pointIds c.
Proof. apply projection_dom. Qed.

(** X6. What the dictionary records for a point. Away from the large faces
    the entry is the negative result with the zero location; for a point
    near them the result flag is that of its ray, and a positive entry is
    the ray's hit itself, however many triangles share the point. *)
Theorem projection_entry (p : nat) (h : Hit) :
  projection inputPolyData maxLength largePointIds pd !! p = Some h ->
  (p ∉ largePointIds -> h = noHit) /\
  (p ∈ largePointIds ->
   hit_res h = hit_res (rayOf inputPolyData maxLength pd p) /\
   (hit_res h = true -> h = rayOf inputPolyData maxLength pd p)).
Proof.
  unfold projection. apply (proj2 (projection_lookup (Cells pd) ∅ p projection_start)).
Qed.

End Projection.

(** On the tetrahedron every point is shared by three triangles and no ray
    hits: each entry ends as the negative result. *)
Lemma projection_entry_witness :
  hit_res noHit = hit_res (rayOf tetra 100%float tetra 0).
Proof.
  destruct (projection_entry tetra 100%float (findLargePoints tetra (Points tetra)) tetra
              0%nat noHit) as [_ Hnear].
  - vm_compute. reflexivity.
  - apply Hnear. unfold findLargePoints. apply findLargePoints_fold. right.
    split; [simpl; lia|vm_compute; reflexivity].
Defined.

(** ** Raycast stage: what the acceptance loop can change *)







(** X8. When the gate is open and a point of the mesh belongs to no
    triangle, the acceptance loop raises (the point has no entry in the
    dictionary): the stage gives no result. *)
Theorem raycast_point_outside_triangles_raises `{VTK} (opts : Options)
    (inputPolyData : PolyData) (largeCellIds : list nat)
    (largeCellsPolyData shrinkModelPD : PolyData) (i : nat) :
  (0 <? length largeCellIds)%nat && fgt (raycastMaxLength opts) 0 = true ->
  (i < length (Points (pointNormalsFilter shrinkModelPD)))%nat ->
  ~ inTriangle (pointNormalsFilter shrinkModelPD) i ->
  raycastProject opts inputPolyData largeCellIds largeCellsPolyData shrinkModelPD = None.
Proof.
  intros Hgate Hi Hout. unfold raycastProject. rewrite Hgate.
  rewrite (acceptHits_missing_entry _ _ _ _ _ i Hi); [reflexivity|].
  apply eq_None_not_Some. rewrite projection_dom. exact Hout.
Qed.

(** The fourth point of [loosePoint] belongs to no triangle. *)
Lemma raycast_point_outside_triangles_raises_witness :
  raycastProject (make_options no_kwargs) tetra [0%nat] loosePoint loosePoint = None.
Proof.
  apply (raycast_point_outside_triangles_raises (make_options no_kwargs) tetra [0%nat]
           loosePoint loosePoint 3).
  - vm_compute. reflexivity.
  - simpl. lia.
  - intros (c & Hc & _ & Hp). simpl in Hc.
    apply elem_of_cons in Hc as [->|Hc]; [|inversion Hc]. simpl in Hp.
    repeat (apply elem_of_cons in Hp as [Hp|Hp]; [discriminate|]). inversion Hp.
Defined.

(** ** Cap removal, once more *)

Lemma filter_idx_all {A : Type} (keep : nat -> bool) (l : list A) :
  (forall i, keep i = true) -> filter_idx keep l = l.
Proof.
  intros Hk. rewrite (filter_idx_filter keep (fun _ => true)) by (intros; apply Hk).
  induction l as [|x l IH]; simpl; [reflexivity|]. rewrite IH. reflexivity.
Qed.

Lemma capMarks_spec (distance : vec3 -> float) (maxModelDistance : float) (pd : PolyData)
    (c : nat) :
  c ∈ capMarks distance maxModelDistance pd
  <-> exists cell, Cells pd !! c = Some cell /\
                   capScan distance maxModelDistance (cellPoints (Points pd) cell) = true.
Proof.
  unfold capMarks. rewrite capMarks_fold. unfold GetNumberOfCells. split.
  - intros [Hin|[Hc Hscan]]; [set_solver|].
    destruct (lookup_lt_is_Some_2 (Cells pd) c) as [cell Hcell]; [lia|].
    exists cell. rewrite Hcell in Hscan. auto.
  - intros (cell & Hcell & Hscan). right. split.
    + apply lookup_lt_Some in Hcell. lia.
    + rewrite Hcell. exact Hscan.
Qed.

Lemma removeCaps_kept `{VTK} (inputPolyData : PolyData) (maxModelDistance : float)
    (shrinkModelPD : PolyData) :
  Cells (removeCaps inputPolyData maxModelDistance shrinkModelPD)
  = List.filter (fun cell => negb (capScan (EvaluateFunction inputPolyData) maxModelDistance
                                           (cellPoints (Points shrinkModelPD) cell)))
                (Cells shrinkModelPD).
Proof.
  unfold removeCaps, RemoveDeletedCells. simpl.
  apply filter_idx_filter. intros i cell Hcell. f_equal.
  destruct (capScan _ _ (cellPoints (Points shrinkModelPD) cell)) eqn:Hscan.
  - apply bool_decide_eq_true_2, capMarks_spec. eauto.
  - apply bool_decide_eq_false_2. rewrite capMarks_spec.
    intros (cell' & Hcell' & Hscan'). congruence.
Qed.

Lemma RemoveDeletedCells_none (pd : PolyData) (deleted : gset nat) :
  (forall c, c ∉ deleted) -> RemoveDeletedCells pd deleted = pd.
Proof.
  intros Hnone. unfold RemoveDeletedCells, withCells.
  rewrite !filter_idx_all by (intros i; rewrite bool_decide_eq_false_2 by apply Hnone; reflexivity).
  destruct pd; reflexivity.
Qed.

(** X13. Cap removal is idempotent: a second removal with the same input
    surface and the same distance finds no cell to delete and returns the
    mesh as the first one left it. *)
Theorem removeCaps_idempotent `{VTK} (inputPolyData : PolyData) (maxModelDistance : float)
    (shrinkModelPD : PolyData) :
  removeCaps inputPolyData maxModelDistance
    (removeCaps inputPolyData maxModelDistance shrinkModelPD)
  = removeCaps inputPolyData maxModelDistance shrinkModelPD.
Proof.
  set (once := removeCaps inputPolyData maxModelDistance shrinkModelPD).
  unfold removeCaps at 1. apply RemoveDeletedCells_none.
  intros c. rewrite capMarks_spec. intros (cell & Hcell & Hscan).
  apply list_elem_of_lookup_2 in Hcell. subst once.
  rewrite removeCaps_kept in Hcell. apply list_elem_of_In, filter_In in Hcell as [_ Hkept].
  change (Points (removeCaps inputPolyData maxModelDistance shrinkModelPD))
    with (Points shrinkModelPD) in Hscan.
  rewrite Hscan in Hkept. discriminate.
Qed.

(** X14. When no point used by a cell lies farther from the input surface
    than the maximal distance, cap removal returns the mesh unchanged. *)
Theorem removeCaps_nothing_far `{VTK} (inputPolyData : PolyData) (maxModelDistance : float)
    (shrinkModelPD : PolyData) :
  (forall cell pointId, cell ∈ Cells shrinkModelPD -> pointId ∈ pointIds cell ->
     fgt (PrimFloat.abs (EvaluateFunction inputPolyData
                           (GetPoint (Points shrinkModelPD) pointId))) maxModelDistance
     = false) ->
  removeCaps inputPolyData maxModelDistance shrinkModelPD = shrinkModelPD.
Proof.
  intros Hnear. unfold removeCaps. apply RemoveDeletedCells_none.
  intros c. rewrite capMarks_spec. intros (cell & Hcell & Hscan).
  apply list_elem_of_lookup_2 in Hcell.
  rewrite capScan_existsb in Hscan. apply existsb_exists in Hscan as (point & Hpoint & Hfar).
  unfold cellPoints in Hpoint. apply in_map_iff in Hpoint as (pointId & <- & Hid).
  apply list_elem_of_In in Hid. rewrite (Hnear cell pointId Hcell Hid) in Hfar. discriminate.
Qed.

(** Every point of the tetrahedron is at distance 0 of the input. *)
Lemma removeCaps_nothing_far_witness :
  removeCaps tetra 0.7%float tetra = tetra.
Proof.
  apply (removeCaps_nothing_far tetra 0.7%float tetra).
  intros cell pointId _ _. vm_compute. reflexivity.
Defined.

(** ** Remeshing: when it raises *)




(** ** First shrinkwrap pass: the whole mesh *)




(** ** Solidification: unused points and the double surface *)

Lemma GetPointCells_nil (cells : list Cell) (i : nat) :
  GetPointCells cells i = [] <-> ~ exists c, c ∈ cells /\ i ∈ pointIds c.
Proof.
  split.
  - intros Hnil (c & Hc & Hi). apply list_elem_of_lookup_1 in Hc as (k & Hk).
    assert (Hin : k ∈ GetPointCells cells i) by (apply GetPointCells_spec; eauto).
    rewrite Hnil in Hin. inversion Hin.
  - intros Hno. destruct (GetPointCells cells i) as [|k rest] eqn:Hcells; [reflexivity|].
    exfalso. apply Hno.
    assert (Hin : k ∈ GetPointCells cells i) by (rewrite Hcells; left).
    apply GetPointCells_spec in Hin as (cell & Hcell & Hi).
    exists cell. split; [eapply list_elem_of_lookup_2; exact Hcell|exact Hi].
Qed.

Lemma offsetVertex_None (thickness : float) (point : vec3) (normalsArray : list vec3) :
  offsetVertex thickness point normalsArray = None <-> normalsArray = [].
Proof.
  unfold offsetVertex. destruct normalsArray; simpl; split; congruence.
Qed.

Lemma addingPoints_None (thickness : float) (pd : PolyData) :
  addingPoints thickness pd = None
  <-> exists i, (i < GetNumberOfPoints pd)%nat /\ ~ pointUsed pd i.
Proof.
  unfold addingPoints. rewrite mapM_None, Exists_exists. unfold pointUsed. split.
  - intros (i & Hi & Hnone). exists i. apply list_elem_of_In, in_seq in Hi.
    split; [lia|]. apply GetPointCells_nil.
    apply offsetVertex_None in Hnone. unfold incidentNormals in Hnone.
    destruct (GetPointCells (Cells pd) i); [reflexivity|discriminate].
  - intros (i & Hi & Hno). exists i. split; [apply list_elem_of_In, in_seq; lia|].
    apply offsetVertex_None. unfold incidentNormals.
    apply GetPointCells_nil in Hno. rewrite Hno. reflexivity.
Qed.

(** X15. Solidification raises exactly when the cleaned mesh has a point
    that no cell uses: the list of normals around it is empty and line 891
    reads its first element. A zero sum of normals does not raise. *)
Theorem solidify_raises `{VTK} (thickness : float) (shrinkModelPD : PolyData) :
  solidify thickness shrinkModelPD = None
  <-> exists i, (i < GetNumberOfPoints (cleanCellNormals shrinkModelPD))%nat /\
                ~ pointUsed (cleanCellNormals shrinkModelPD) i.
Proof.
  rewrite <- (addingPoints_None thickness). unfold solidify.
  destruct (addingPoints thickness (cleanCellNormals shrinkModelPD)); simpl;
    split; congruence.
Qed.




(** ** The run: what it computes and commits *)

Lemma commits_app (t1 t2 : list Event) : commits (t1 ++ t2) = commits t1 ++ commits t2.
Proof. unfold commits. apply List.filter_app. Qed.

Lemma stagesRun_app (t1 t2 : list Event) : stagesRun (t1 ++ t2) = stagesRun t1 ++ stagesRun t2.
Proof. unfold stagesRun. apply flat_map_app. Qed.

Section Outcome.

Context `{VTK}.
Variable cancelDuring : nat -> bool.
Variable hasDisplayNode : bool.
Variable input : PolyData.
Variable l_in : nat.

Lemma Running_step (l l' : nat) (work work' : PolyData) (ss : list Stage) (w w' : World)
    (t : list Event) :
  Running cancelDuring input l_in l work ss w ->
  heap w' !! l_in = Some input -> heap w' !! l' = Some work' -> l' <> l_in ->
  trace w' = trace w ++ t -> commits t = [] ->
  (cancelRequested w' = true -> cancelRequested w = true \/ cancelPressed cancelDuring) ->
  Running cancelDuring input l_in l' work' (ss ++ stagesRun t) w'.
Proof.
  intros (_ & _ & _ & Hc & Hs & Hflag) Hin Hwork Hne Ht Hct Hflag'.
  repeat split; try assumption.
  - rewrite Ht, commits_app, Hc, Hct. reflexivity.
  - rewrite Ht, stagesRun_app, Hs. reflexivity.
  - intros Hreq. destruct (Hflag' Hreq) as [Hold|Hnew]; auto.
Qed.

Lemma Running_quiet (l : nat) (work : PolyData) (ss : list Stage) (w : World) (t : list Event) :
  Running cancelDuring input l_in l work ss w -> commits t = [] ->
  commits (trace w ++ t) = [].
Proof. intros (_ & _ & _ & Hc & _) Ht. rewrite commits_app, Hc, Ht. reflexivity. Qed.

Lemma flag_after_log (w : World) :
  cancelRequested w || cancelDuring (ticks w) = true ->
  cancelRequested w = true \/ cancelPressed cancelDuring.
Proof.
  intros Hor. apply orb_true_iff in Hor as [Hreq|Hnow]; [left; exact Hreq|].
  right. exists (ticks w). exact Hnow.
Qed.

Lemma fresh_ne (w : World) (l : nat) (pd : PolyData) :
  heap w !! l = Some pd -> fresh (dom (heap w)) <> l.
Proof.
  intros Hl Heq. apply (is_fresh (dom (heap w))). rewrite Heq. apply elem_of_dom. eauto.
Qed.

Lemma stage_ok_ext (l : nat) (m : M unit) (g g' : PolyData -> option PolyData)
    (add add' : list Stage) :
  stage_ok cancelDuring input l_in l m g add ->
  (forall work, g work = g' work) -> add = add' ->
  stage_ok cancelDuring input l_in l m g' add'.
Proof.
  intros Hm Hg <- work ss w Hw. specialize (Hm work ss w Hw).
  rewrite <- Hg. exact Hm.
Qed.

Lemma stage_ok_bind (l : nat) (m1 m2 : M unit) (g1 g2 : PolyData -> option PolyData)
    (add1 add2 : list Stage) :
  stage_ok cancelDuring input l_in l m1 g1 add1 ->
  stage_ok cancelDuring input l_in l m2 g2 add2 ->
  stage_ok cancelDuring input l_in l (m1 ;; m2) (fun work => g1 work ≫= g2) (add1 ++ add2).
Proof.
  intros H1 H2 work ss w Hw. rewrite bind_run. specialize (H1 work ss w Hw).
  destruct (m1 w) as [[[]|e|] w1].
  - destruct H1 as (work1 & Hg1 & Hw1). rewrite Hg1. simpl.
    specialize (H2 work1 (ss ++ add1) w1 Hw1). rewrite <- app_assoc in H2. exact H2.
  - exact H1.
  - destruct H1 as [Hg1 Hq]. rewrite Hg1. split; [reflexivity|exact Hq].
Qed.

Lemma stage_ok_ret (l : nat) : stage_ok cancelDuring input l_in l (mret tt) Some [].
Proof.
  intros work ss w Hw. exists work. split; [reflexivity|]. rewrite app_nil_r. exact Hw.
Qed.

Lemma stage_ok_logCallback (l : nat) (m : Msg) :
  stage_ok cancelDuring input l_in l (logCallback cancelDuring m) Some [].
Proof.
  intros work ss w Hw. exists work. split; [reflexivity|].
  pose proof Hw as (Hin & Hwork & Hne & _).
  apply (Running_step l l work work ss w _ [EvLog m] Hw); try assumption; try reflexivity.
  apply flag_after_log.
Qed.

Lemma stage_ok_checkCancel (l : nat) :
  stage_ok cancelDuring input l_in l (checkCancel cancelDuring) Some [].
Proof.
  intros work ss w Hw. destruct (cancelRequested w) eqn:Hreq.
  - rewrite checkCancel_requested by exact Hreq. split; [reflexivity|]. split.
    + apply (Running_quiet l work ss w [EvLog MsgNone] Hw). reflexivity.
    + destruct Hw as (_ & _ & _ & _ & _ & Hflag). auto.
  - unfold checkCancel. rewrite bind_run. unfold getCancelRequested. cbv beta iota.
    rewrite Hreq. exists work. split; [reflexivity|]. rewrite app_nil_r. exact Hw.
Qed.

Lemma stage_ok_runStage (l : nat) (s : Stage) (f : PolyData -> PolyData -> option PolyData) :
  stage_ok cancelDuring input l_in l (runStage s l_in l f) (f input) [s].
Proof.
  intros work ss w Hw. pose proof Hw as (Hin & Hwork & Hne & Hc & _).
  unfold runStage. rewrite bind_load; msimpl. rewrite bind_load; msimpl.
  rewrite Hin, Hwork; msimpl. rewrite bind_run.
  destruct (f input work) as [new|]; simpl; [|auto].
  exists new. split; [reflexivity|].
  apply (Running_step l l work new ss w _ [EvStage s input] Hw); simpl; auto.
  - rewrite lookup_insert_ne by exact Hne. exact Hin.
  - apply lookup_insert_eq.
Qed.

(** The first pass: lines 522-563. *)
Lemma stage_ok_firstPass_from (opts : Options) (l : nat) (k s : nat) :
  Z.of_nat (s + S k) = iterationsFirstShrinkwrap opts ->
  stage_ok cancelDuring input l_in l (firstPass cancelDuring opts l_in l (seq s (S k)))
    (fun work =>
       rounds k (fun work => shrinkwrap input (offsetFirstShrinkwrap opts)
                               <$> remeshPolydata work (replicate 3 (spacingFirstRemesh opts)))
              (shrinkwrap input (offsetFirstShrinkwrap opts) work))
    (FirstShrinkwrap :: concat (replicate k [Remesh; FirstShrinkwrap])).
Proof.
  revert s. induction k as [|k IH]; intros s Hn; cbn [seq firstPass].
  - rewrite (proj2 (Z.eqb_eq _ _)) by lia.
    eapply stage_ok_ext.
    + apply stage_ok_bind; [apply stage_ok_checkCancel|].
      apply stage_ok_bind; [apply stage_ok_logCallback|].
      apply stage_ok_bind; [apply stage_ok_runStage|apply stage_ok_ret].
    + intros work. reflexivity.
    + reflexivity.
  - rewrite (proj2 (Z.eqb_neq _ _)) by lia.
    eapply stage_ok_ext.
    + apply stage_ok_bind; [apply stage_ok_checkCancel|].
      apply stage_ok_bind; [apply stage_ok_logCallback|].
      apply stage_ok_bind; [apply stage_ok_runStage|].
      apply stage_ok_bind; [apply stage_ok_checkCancel|].
      apply stage_ok_bind; [apply stage_ok_logCallback|].
      apply stage_ok_bind; [apply stage_ok_runStage|].
      apply (IH (S s)). lia.
    + intros work. simpl.
      destruct (remeshPolydata _ _); reflexivity.
    + reflexivity.
Qed.

Lemma stage_ok_firstPass (opts : Options) (l : nat) :
  stage_ok cancelDuring input l_in l
    (firstPass cancelDuring opts l_in l (seq 0 (Z.to_nat (iterationsFirstShrinkwrap opts))))
    (firstPassMesh opts input) (firstPassStages opts).
Proof.
  unfold firstPassMesh, firstPassStages.
  destruct (Z.to_nat (iterationsFirstShrinkwrap opts)) as [|k] eqn:Hn.
  - apply stage_ok_ret.
  - apply stage_ok_firstPass_from. lia.
Qed.

(** The second pass: lines 750-772. *)
Lemma stage_ok_secondPass_from (opts : Options) (l : nat) (k s : nat) :
  Z.of_nat (s + k) = iterationsSecondShrinkwrap opts ->
  stage_ok cancelDuring input l_in l (secondPass cancelDuring opts l_in l (seq s (S k)))
    (fun work =>
       work ← rounds k (fun work => (fun work => smoothPolyDataFilter work input)
                                 <$> remeshPolydata work (replicate 3 (spacingSecondRemesh opts)))
                    work;
       remeshPolydata work (replicate 3 (spacingSecondRemesh opts)))
    (concat (replicate k [Remesh; SecondShrinkwrap]) ++ [Remesh]).
Proof.
  revert s. induction k as [|k IH]; intros s Hn; cbn [seq secondPass].
  - rewrite (proj2 (Z.eqb_eq _ _)) by lia.
    eapply stage_ok_ext.
    + apply stage_ok_bind; [apply stage_ok_checkCancel|].
      apply stage_ok_bind; [apply stage_ok_logCallback|].
      apply stage_ok_bind; [apply stage_ok_runStage|apply stage_ok_ret].
    + intros work. simpl. destruct (remeshPolydata _ _); reflexivity.
    + reflexivity.
  - rewrite (proj2 (Z.eqb_neq _ _)) by lia.
    eapply stage_ok_ext.
    + apply stage_ok_bind; [apply stage_ok_checkCancel|].
      apply stage_ok_bind; [apply stage_ok_logCallback|].
      apply stage_ok_bind; [apply stage_ok_runStage|].
      apply stage_ok_bind; [apply stage_ok_checkCancel|].
      apply stage_ok_bind; [apply stage_ok_logCallback|].
      apply stage_ok_bind; [apply stage_ok_runStage|].
      apply (IH (S s)). lia.
    + intros work. simpl.
      destruct (remeshPolydata work _); reflexivity.
    + reflexivity.
Qed.

Lemma stage_ok_secondPass (opts : Options) (l : nat) :
  stage_ok cancelDuring input l_in l
    (secondPass cancelDuring opts l_in l
       (seq 0 (Z.to_nat (iterationsSecondShrinkwrap opts + 1))))
    (secondPassMesh opts input) (secondPassStages opts).
Proof.
  unfold secondPassMesh, secondPassStages.
  destruct (Z.to_nat (iterationsSecondShrinkwrap opts + 1)) as [|k] eqn:Hn.
  - apply stage_ok_ret.
  - apply stage_ok_secondPass_from. lia.
Qed.

(** The raycast stage: lines 579-732. *)
Lemma stage_ok_raycastStage (opts : Options) (l : nat) :
  stage_ok cancelDuring input l_in l (raycastStage cancelDuring opts l_in l)
    (raycastMesh opts input) [Subdivide; Raycast].
Proof.
  intros work ss w Hw. unfold raycastStage, raycastMesh.
  pose proof (stage_ok_checkCancel l work ss w Hw) as Hcheck. rewrite bind_run.
  destruct (checkCancel cancelDuring w) as [[[]|e|] w1]; [|exact Hcheck|destruct Hcheck; discriminate].
  destruct Hcheck as (work1 & [= <-] & Hw1). rewrite app_nil_r in Hw1. clear w Hw.
  pose proof Hw1 as (Hin & Hwork & Hne & _).
  rewrite bind_logCallback; msimpl. rewrite bind_load; msimpl. rewrite bind_load; msimpl.
  rewrite Hin, Hwork; msimpl. rewrite bind_run.
  destruct (raycastPrepare opts work) as [[[ids large] subdivided]|] eqn:Hprep; simpl.
  2:{ split; [reflexivity|]. apply (Running_quiet l work ss w1 [EvLog MsgRaycasting] Hw1).
      reflexivity. }
  rewrite bind_alloc; msimpl. rewrite bind_emit; msimpl. rewrite bind_store; msimpl.
  set (l_large := fresh (dom (heap w1))).
  assert (Hl1 : l_large <> l_in) by (eapply fresh_ne; exact Hin).
  assert (Hl2 : l_large <> l) by (eapply fresh_ne; exact Hwork).
  match goal with |- context [(checkCancel cancelDuring ≫= ?f) ?w] => set (w2 := w) end.
  assert (Hw2 : Running cancelDuring input l_in l subdivided (ss ++ [Subdivide]) w2).
  { apply (Running_step l l work subdivided ss w1 w2
             [EvLog MsgRaycasting; EvStage Subdivide input] Hw1); try reflexivity.
    - subst w2. msimpl. rewrite lookup_insert_ne by congruence.
      rewrite lookup_insert_ne by congruence. exact Hin.
    - subst w2. msimpl. apply lookup_insert_eq.
    - exact Hne.
    - subst w2. msimpl. rewrite <- app_assoc. reflexivity.
    - subst w2. msimpl. apply flag_after_log. }
  assert (Hlarge : heap w2 !! l_large = Some large).
  { subst w2. msimpl. rewrite lookup_insert_ne by congruence. apply lookup_insert_eq. }
  clearbody w2.
  pose proof (stage_ok_checkCancel l subdivided _ w2 Hw2) as Hcheck. rewrite bind_run.
  destruct (checkCancel cancelDuring w2) as [[[]|e|] w3] eqn:Hrun;
    [|exact Hcheck|destruct Hcheck; discriminate].
  destruct Hcheck as (work3 & [= <-] & Hw3). rewrite app_nil_r in Hw3.
  assert (Hheap : heap w3 = heap w2).
  { unfold checkCancel in Hrun. rewrite bind_run in Hrun.
    unfold getCancelRequested in Hrun. cbv beta iota in Hrun.
    destruct (cancelRequested w2); [rewrite bind_run in Hrun; discriminate|].
    injection Hrun as <-. reflexivity. }
  rewrite bind_load; msimpl. rewrite Hheap, Hlarge; msimpl.
  pose proof (stage_ok_runStage l Raycast
                (fun inp work => raycastProject opts inp ids large work)
                subdivided _ w3 Hw3) as Hstage.
  destruct (runStage Raycast l_in l _ w3) as [[[]|e|] w4]; [|exact Hstage|exact Hstage].
  destruct Hstage as (result & Hres & Hw4). exists result. split; [exact Hres|].
  rewrite <- app_assoc in Hw4. exact Hw4.
Qed.

(** Cap removal: lines 790-817. *)
Lemma stage_ok_capStage (opts : Options) (l : nat) :
  stage_ok cancelDuring input l_in l (capStage cancelDuring opts l_in l)
    (fun work => Some (removeCaps input (maxModelDistance opts) work)) [RemoveCaps].
Proof.
  intros work ss w Hw. unfold capStage.
  pose proof (stage_ok_checkCancel l work ss w Hw) as Hcheck. rewrite bind_run.
  destruct (checkCancel cancelDuring w) as [[[]|e|] w1]; [|exact Hcheck|destruct Hcheck; discriminate].
  destruct Hcheck as (work1 & [= <-] & Hw1). rewrite app_nil_r in Hw1. clear w Hw.
  pose proof Hw1 as (Hin & Hwork & Hne & _).
  rewrite bind_logCallback; msimpl. rewrite bind_load; msimpl. rewrite Hwork; msimpl.
  rewrite bind_alloc; msimpl.
  set (l_nonsolid := fresh (dom (heap w1))).
  assert (Hl1 : l_nonsolid <> l_in) by (eapply fresh_ne; exact Hin).
  assert (Hl2 : l_nonsolid <> l) by (eapply fresh_ne; exact Hwork).
  rewrite bind_load; msimpl. rewrite lookup_insert_ne by exact Hl1. rewrite Hin; msimpl.
  rewrite bind_load; msimpl. rewrite lookup_insert_eq; msimpl.
  rewrite bind_emit; msimpl. rewrite bind_store; msimpl.
  rewrite bind_load; msimpl. rewrite lookup_insert_eq; msimpl.
  unfold store. eexists. split; [reflexivity|].
  apply (Running_step l l work _ ss w1 _ [EvLog MsgRemovingCaps; EvStage RemoveCaps input] Hw1);
    msimpl; try reflexivity.
  - rewrite !lookup_insert_ne by congruence. exact Hin.
  - apply lookup_insert_eq.
  - exact Hne.
  - rewrite <- app_assoc. reflexivity.
  - apply flag_after_log.
Qed.

(** Solidification: lines 833-955. The result is a new object. *)
Lemma solidifyStage_ok (opts : Options) (l : nat) (work : PolyData) (ss : list Stage)
    (w : World) :
  Running cancelDuring input l_in l work ss w ->
  match solidifyStage cancelDuring opts l_in l w with
  | (Continue solid, w') =>
      exists mesh, solidify (solidificationThickness opts) work = Some mesh /\
                   Running cancelDuring input l_in solid mesh (ss ++ [Solidification]) w'
  | (Return e, w') => e = ExitCancelled /\ commits (trace w') = [] /\ cancelPressed cancelDuring
  | (Raised, w') =>
      solidify (solidificationThickness opts) work = None /\ commits (trace w') = []
  end.
Proof.
  intros Hw. unfold solidifyStage.
  pose proof (stage_ok_checkCancel l work ss w Hw) as Hcheck. rewrite bind_run.
  destruct (checkCancel cancelDuring w) as [[[]|e|] w1]; [|exact Hcheck|destruct Hcheck; discriminate].
  destruct Hcheck as (work1 & [= <-] & Hw1). rewrite app_nil_r in Hw1. clear w Hw.
  pose proof Hw1 as (Hin & Hwork & Hne & _).
  rewrite bind_logCallback; msimpl. rewrite bind_load; msimpl. rewrite bind_load; msimpl.
  rewrite Hin, Hwork; msimpl. rewrite bind_store; msimpl. rewrite bind_run.
  destruct (solidify (solidificationThickness opts) work) as [mesh|] eqn:Hsolid; simpl.
  2:{ split; [reflexivity|]. apply (Running_quiet l work ss w1 [EvLog MsgSolidifying] Hw1).
      reflexivity. }
  exists mesh. split; [reflexivity|].
  match goal with |- context [fresh (dom ?h)] => set (hp := h) end.
  assert (Hin' : hp !! l_in = Some input).
  { subst hp. rewrite lookup_insert_ne by exact Hne. exact Hin. }
  assert (Hfresh : fresh (dom hp) <> l_in).
  { intros Heq. apply (is_fresh (dom hp)). rewrite Heq. apply elem_of_dom. eauto. }
  apply (Running_step l _ work mesh ss w1 _
           [EvLog MsgSolidifying; EvStage Solidification input] Hw1); msimpl; try reflexivity.
  - rewrite lookup_insert_ne by exact Hfresh. exact Hin'.
  - apply lookup_insert_eq.
  - exact Hfresh.
  - rewrite <- app_assoc. reflexivity.
  - apply flag_after_log.
Qed.


Lemma finish_ok_ext (opts : Options) (l : nat) (m : M unit)
    (g g' : PolyData -> option PolyData) (add add' : list Stage) :
  finish_ok cancelDuring input l_in opts l m g add ->
  (forall work, g work = g' work) -> add = add' ->
  finish_ok cancelDuring input l_in opts l m g' add'.
Proof.
  intros Hm Hg <- work ss w Hw. specialize (Hm work ss w Hw).
  rewrite <- Hg. exact Hm.
Qed.

Lemma finish_ok_bind (opts : Options) (l : nat) (m t : M unit)
    (g1 g2 : PolyData -> option PolyData) (add1 add2 : list Stage) :
  stage_ok cancelDuring input l_in l m g1 add1 ->
  finish_ok cancelDuring input l_in opts l t g2 add2 ->
  finish_ok cancelDuring input l_in opts l (m ;; t) (fun work => g1 work ≫= g2) (add1 ++ add2).
Proof.
  intros H1 H2 work ss w Hw. rewrite bind_run. specialize (H1 work ss w Hw).
  destruct (m w) as [[[]|e|] w1].
  - destruct H1 as (work1 & Hg1 & Hw1). rewrite Hg1. simpl.
    specialize (H2 work1 (ss ++ add1) w1 Hw1). rewrite <- app_assoc in H2. exact H2.
  - destruct H1 as (-> & Hq & Hp). simpl. auto.
  - destruct H1 as [Hg1 Hq]. rewrite Hg1. simpl. auto.
Qed.

(** The dispatch of lines 565-575, 734-744, 776-786 and 959-969. *)
Lemma finish_ok_dispatch (opts : Options) (l : nat) :
  knownMode opts = true -> String.eqb (filterMode opts) MODE_NONMANIFOLD = false ->
  finish_ok cancelDuring input l_in opts l (dispatch cancelDuring hasDisplayNode opts l) Some [].
Proof.
  intros Hknown Hnm work ss w (Hin & Hwork & Hne & Hc & Hs & Hflag).
  rewrite app_nil_r.
  unfold Ended, expectedExit, commitOf, knownOutput. rewrite Hknown, Hnm.
  unfold dispatch, polydataToSegment, polydataToModel, cleanup, logCallback, load, emit,
    getCancelRequested, exit, mbind, M_bind, mret, M_ret.
  destruct w as [hp flag tk tr]. simpl in Hin, Hwork, Hc, Hs, Hflag.
  destruct (String.eqb (outputType opts) OUTPUT_SEGMENTATION);
    [|destruct (String.eqb (outputType opts) OUTPUT_MODEL)];
    destruct flag; destruct hasDisplayNode; cbn -[String.eqb commits stagesRun];
    rewrite ?Hwork; cbn -[String.eqb commits stagesRun];
    (split; [reflexivity|]); exists work; (split; [reflexivity|]);
    rewrite <- ?app_assoc; rewrite ?stagesRun_app, ?commits_app, ?Hs, ?Hc; simpl;
    (split; [rewrite ?app_nil_r; reflexivity|]); auto.
Qed.

(** The dispatch of lines 819-829. *)
Lemma finish_ok_dispatchNonmanifold (opts : Options) (l : nat) :
  String.eqb (filterMode opts) MODE_NONMANIFOLD = true ->
  finish_ok cancelDuring input l_in opts l
    (dispatchNonmanifold cancelDuring opts l) Some [].
Proof.
  intros Hnm work ss w (Hin & Hwork & Hne & Hc & Hs & Hflag).
  assert (Hknown : knownMode opts = true).
  { unfold knownMode. rewrite Hnm, !orb_true_r. reflexivity. }
  rewrite app_nil_r.
  unfold Ended, expectedExit, commitOf, knownOutput. rewrite Hknown, Hnm.
  unfold dispatchNonmanifold, polydataToModel, cleanup, logCallback, load, emit,
    getCancelRequested, exit, mbind, M_bind, mret, M_ret.
  destruct w as [hp flag tk tr]. simpl in Hin, Hwork, Hc, Hs, Hflag.
  destruct (String.eqb (outputType opts) OUTPUT_SEGMENTATION);
    [|destruct (String.eqb (outputType opts) OUTPUT_MODEL)];
    destruct flag; cbn -[String.eqb commits stagesRun];
    rewrite ?Hwork; cbn -[String.eqb commits stagesRun];
    (split; [reflexivity|]); exists work; (split; [reflexivity|]);
    rewrite <- ?app_assoc; rewrite ?stagesRun_app, ?commits_app, ?Hs, ?Hc; simpl;
    (split; [rewrite ?app_nil_r; reflexivity|]); auto.
Qed.

(** Lines 833-972: solidification and what follows it. *)
Lemma finish_ok_solidify (opts : Options) (l : nat) :
  String.eqb (filterMode opts) MODE_CONVEXHULL = false ->
  String.eqb (filterMode opts) MODE_RAYCASTS = false ->
  String.eqb (filterMode opts) MODE_DEEPHULL = false ->
  String.eqb (filterMode opts) MODE_NONMANIFOLD = false ->
  finish_ok cancelDuring input l_in opts l
    (solid ← solidifyStage cancelDuring opts l_in l;
     if String.eqb (filterMode opts) MODE_SOLIDIFIED
     then dispatch cancelDuring hasDisplayNode opts solid
     else emit (EvError ErrUnknownFilterMode) ;; exit ExitFailed)
    (solidify (solidificationThickness opts)) [Solidification].
Proof.
  intros H1 H2 H3 H4 work ss w Hw. rewrite bind_run.
  pose proof (solidifyStage_ok opts l work ss w Hw) as Hstage.
  destruct (solidifyStage cancelDuring opts l_in l w) as [[solid|e|] w1].
  - destruct Hstage as (mesh & -> & Hw1).
    destruct (String.eqb (filterMode opts) MODE_SOLIDIFIED) eqn:H5.
    + pose proof (finish_ok_dispatch opts solid) as Hd.
      unfold knownMode in Hd. rewrite H5, !orb_true_r in Hd.
      specialize (Hd eq_refl H4 mesh _ w1 Hw1). rewrite app_nil_r in Hd. exact Hd.
    + destruct Hw1 as (_ & _ & _ & Hc & Hs & _).
      unfold Ended, expectedExit, commitOf, knownMode. rewrite H1, H2, H3, H4, H5. simpl.
      split; [reflexivity|]. exists mesh. split; [reflexivity|].
      rewrite stagesRun_app, commits_app, Hs, Hc. simpl.
      split; [rewrite app_nil_r; reflexivity|]. auto.
  - destruct Hstage as (-> & Hq & Hp). simpl. auto.
  - destruct Hstage as [-> Hq]. simpl. auto.
Qed.

Ltac stage_then :=
  apply finish_ok_bind;
  [first [ apply stage_ok_firstPass | apply stage_ok_secondPass | apply stage_ok_raycastStage
         | apply stage_ok_capStage | apply stage_ok_runStage ]|].

(** Lines 493-972, from the sphere on. *)
Lemma finish_ok_stages (opts : Options) (l : nat) :
  finish_ok cancelDuring input l_in opts l
    (firstPass cancelDuring opts l_in l
       (seq 0 (Z.to_nat (iterationsFirstShrinkwrap opts))) ;;
     if String.eqb (filterMode opts) MODE_CONVEXHULL
     then dispatch cancelDuring hasDisplayNode opts l
     else
       raycastStage cancelDuring opts l_in l ;;
       if String.eqb (filterMode opts) MODE_RAYCASTS
       then dispatch cancelDuring hasDisplayNode opts l
       else
         secondPass cancelDuring opts l_in l
           (seq 0 (Z.to_nat (iterationsSecondShrinkwrap opts + 1))) ;;
         runStage Smoothing l_in l (fun _ work => Some (smoothPolydata work)) ;;
         if String.eqb (filterMode opts) MODE_DEEPHULL
         then dispatch cancelDuring hasDisplayNode opts l
         else
           capStage cancelDuring opts l_in l ;;
           if String.eqb (filterMode opts) MODE_NONMANIFOLD
           then dispatchNonmanifold cancelDuring opts l
           else
             solid ← solidifyStage cancelDuring opts l_in l;
             if String.eqb (filterMode opts) MODE_SOLIDIFIED
             then dispatch cancelDuring hasDisplayNode opts solid
             else emit (EvError ErrUnknownFilterMode) ;; exit ExitFailed)
    (pipelineFrom opts input) (expectedStages opts).
Proof.
  unfold pipelineFrom, expectedStages.
  destruct (String.eqb (filterMode opts) MODE_CONVEXHULL) eqn:H1.
  { eapply finish_ok_ext.
    - stage_then. apply finish_ok_dispatch.
      + unfold knownMode. rewrite H1. reflexivity.
      + apply String.eqb_eq in H1. rewrite H1. reflexivity.
    - intros work. simpl. destruct (firstPassMesh opts input work); reflexivity.
    - reflexivity. }
  destruct (String.eqb (filterMode opts) MODE_RAYCASTS) eqn:H2.
  { eapply finish_ok_ext.
    - do 2 stage_then. apply finish_ok_dispatch.
      + unfold knownMode. rewrite H2, !orb_true_r. reflexivity.
      + apply String.eqb_eq in H2. rewrite H2. reflexivity.
    - intros work. simpl. destruct (firstPassMesh opts input work) as [hull|]; simpl; [|reflexivity].
      destruct (raycastMesh opts input hull); reflexivity.
    - reflexivity. }
  destruct (String.eqb (filterMode opts) MODE_DEEPHULL) eqn:H3.
  { eapply finish_ok_ext.
    - do 4 stage_then. apply finish_ok_dispatch.
      + unfold knownMode. rewrite H3, !orb_true_r. reflexivity.
      + apply String.eqb_eq in H3. rewrite H3. reflexivity.
    - intros work. simpl. destruct (firstPassMesh opts input work) as [hull|]; simpl; [|reflexivity].
      destruct (raycastMesh opts input hull) as [rays|]; simpl; [|reflexivity].
      destruct (secondPassMesh opts input rays); reflexivity.
    - reflexivity. }
  destruct (String.eqb (filterMode opts) MODE_NONMANIFOLD) eqn:H4.
  { eapply finish_ok_ext.
    - do 5 stage_then. apply finish_ok_dispatchNonmanifold. exact H4.
    - intros work. simpl. destruct (firstPassMesh opts input work) as [hull|]; simpl; [|reflexivity].
      destruct (raycastMesh opts input hull) as [rays|]; simpl; [|reflexivity].
      destruct (secondPassMesh opts input rays); reflexivity.
    - reflexivity. }
  eapply finish_ok_ext.
  - do 5 stage_then. apply finish_ok_solidify; assumption.
  - intros work. simpl. destruct (firstPassMesh opts input work) as [hull|]; simpl; [|reflexivity].
    destruct (raycastMesh opts input hull) as [rays|]; simpl; [|reflexivity].
    destruct (secondPassMesh opts input rays); reflexivity.
  - reflexivity.
Qed.

Lemma stages_outcome (opts : Options) (w : World) :
  heap w !! l_in = Some input -> commits (trace w) = [] -> stagesRun (trace w) = [] ->
  (cancelRequested w = true -> cancelPressed cancelDuring) ->
  Ended cancelDuring opts (outputMesh opts input) (expectedStages opts)
        (fst (stages cancelDuring hasDisplayNode opts l_in w))
        (snd (stages cancelDuring hasDisplayNode opts l_in w)).
Proof.
  intros Hin Hc Hs Hflag. unfold stages.
  rewrite bind_load; msimpl. rewrite Hin; msimpl. rewrite bind_alloc; msimpl.
  apply (finish_ok_stages opts (fresh (dom (heap w))) (enclosingSphere input) []).
  repeat split; msimpl; try assumption.
  - rewrite lookup_insert_ne by (eapply fresh_ne; exact Hin). exact Hin.
  - apply lookup_insert_eq.
  - eapply fresh_ne. exact Hin.
Qed.

End Outcome.

(** Every run ends as the composition of its stages tells. *)
Lemma run_outcome `{VTK} (cancelDuring : nat -> bool) (hasDisplayNode : bool)
    (inputSurface : PolyData) (kwargs : Kwargs) :
  Ended cancelDuring (make_options kwargs)
        (outputMesh (make_options kwargs) inputSurface)
        (expectedStages (make_options kwargs))
        (fst (run cancelDuring hasDisplayNode inputSurface kwargs))
        (snd (run cancelDuring hasDisplayNode inputSurface kwargs)).
Proof.
  rewrite run_stages. apply stages_outcome; msimpl.
  - apply lookup_singleton_eq.
  - unfold preparation. destruct hasDisplayNode; reflexivity.
  - unfold preparation. destruct hasDisplayNode; reflexivity.
  - intros Hreq. exists 0%nat. exact Hreq.
Qed.

Lemma commitOf_cases (opts : Options) (pd : PolyData) (e : Event) :
  In e (commitOf opts pd) ->
  commitOf opts pd = [e] /\ expectedExit opts = ExitDone /\
  (e = EvAddModel pd /\ outputType opts = OUTPUT_MODEL \/
   e = EvNode (SegmentDeepCopy pd) /\ outputType opts = OUTPUT_SEGMENTATION).
Proof.
  unfold commitOf, expectedExit, knownOutput.
  destruct (knownMode opts); simpl; [|intros []].
  destruct (String.eqb (outputType opts) OUTPUT_SEGMENTATION) eqn:Hseg.
  - destruct (String.eqb (filterMode opts) MODE_NONMANIFOLD); simpl; [intros []|].
    intros [<-|[]]. apply String.eqb_eq in Hseg. auto.
  - destruct (String.eqb (outputType opts) OUTPUT_MODEL) eqn:Hmodel; simpl; [|intros []].
    intros [<-|[]]. apply String.eqb_eq in Hmodel. auto.
Qed.




(** X19. Whatever the cancellation requests, a run commits at most once:
    an event that adds a model or replaces the segment is the only commit of
    its run, it carries the mesh that the stages of the filter mode give for
    the input surface, its kind is the one the output type names, and the
    run returns True. *)
Theorem committed_mesh `{VTK} (cancelDuring : nat -> bool) (hasDisplayNode : bool)
    (inputSurface : PolyData) (kwargs : Kwargs) (e : Event) :
  let opts := make_options kwargs in
  let out := run cancelDuring hasDisplayNode inputSurface kwargs in
  In e (trace (snd out)) -> isCommit e = true ->
  fst out = Return ExitDone /\
  commits (trace (snd out)) = [e] /\
  exists pd, outputMesh opts inputSurface = Some pd /\
    (e = EvAddModel pd /\ outputType opts = OUTPUT_MODEL \/
     e = EvNode (SegmentDeepCopy pd) /\ outputType opts = OUTPUT_SEGMENTATION).
Proof.
  intros opts out Hin Hcommit. subst opts out.
  pose proof (run_outcome cancelDuring hasDisplayNode inputSurface kwargs) as Hend.
  assert (Hc : In e (commits (trace (snd (run cancelDuring hasDisplayNode inputSurface kwargs)))))
    by (apply filter_In; auto).
  assert (Hgen : forall x, x = expectedExit (make_options kwargs) ->
    (exists pd, outputMesh (make_options kwargs) inputSurface = Some pd /\
       stagesRun (trace (snd (run cancelDuring hasDisplayNode inputSurface kwargs)))
       = expectedStages (make_options kwargs) /\
       (commits (trace (snd (run cancelDuring hasDisplayNode inputSurface kwargs)))
        = commitOf (make_options kwargs) pd \/
        commits (trace (snd (run cancelDuring hasDisplayNode inputSurface kwargs))) = [] /\
        cancelPressed cancelDuring)) ->
    x = ExitDone /\
    commits (trace (snd (run cancelDuring hasDisplayNode inputSurface kwargs))) = [e] /\
    exists pd, outputMesh (make_options kwargs) inputSurface = Some pd /\
      (e = EvAddModel pd /\ outputType (make_options kwargs) = OUTPUT_MODEL \/
       e = EvNode (SegmentDeepCopy pd) /\
       outputType (make_options kwargs) = OUTPUT_SEGMENTATION)).
  { intros x Hx (pd & Hmesh & _ & [Hcm|[Hnil _]]); [|rewrite Hnil in Hc; destruct Hc].
    rewrite Hcm in Hc. apply commitOf_cases in Hc as (Hone & Hexit & Hkind).
    split; [congruence|]. split; [congruence|]. exists pd. auto. }
  destruct (fst (run cancelDuring hasDisplayNode inputSurface kwargs)) as [[]|x|];
    simpl in Hend.
  - contradiction.
  - destruct x.
    + destruct Hend as [Hnil _]. rewrite Hnil in Hc. destruct Hc.
    + destruct Hend as [Hx Hrest]. destruct (Hgen _ Hx Hrest) as (Hd & _). discriminate.
    + destruct Hend as [Hx Hrest]. destruct (Hgen _ Hx Hrest) as (_ & Hone & Hpd). auto.
  - destruct Hend as [_ Hnil]. rewrite Hnil in Hc. destruct Hc.
Qed.

(** The model added by the short run for the convex hull. *)
Lemma committed_mesh_witness :
  fst (run neverCancel true tetra (kwShort OUTPUT_MODEL MODE_CONVEXHULL)) = Return ExitDone /\
  commits (trace (snd (run neverCancel true tetra (kwShort OUTPUT_MODEL MODE_CONVEXHULL))))
  = [EvAddModel tetra].
Proof.
  destruct (committed_mesh neverCancel true tetra (kwShort OUTPUT_MODEL MODE_CONVEXHULL)
              (EvAddModel tetra)) as (Hret & Hone & _).
  - vm_compute. repeat (first [left; reflexivity | right]).
  - reflexivity.
  - split; [exact Hret|exact Hone].
Defined.

(** X20. A run that returns without having stopped at a cancellation check
    has computed exactly the stages of its filter mode, in their order: n
    shrinkwraps with n - 1 remeshes between them, then, mode by mode, the
    subdivision and the raycast, the m + 1 remeshes with m smoothings between
    them and the final smoothing, the cap removal, the solidification. Its
    return value is True exactly when filter mode and output type are known. *)
Theorem stages_of_a_finished_run `{VTK} (cancelDuring : nat -> bool) (hasDisplayNode : bool)
    (inputSurface : PolyData) (kwargs : Kwargs) (e : Exit) :
  let opts := make_options kwargs in
  let out := run cancelDuring hasDisplayNode inputSurface kwargs in
  fst out = Return e -> e <> ExitCancelled ->
  e = expectedExit opts /\ stagesRun (trace (snd out)) = expectedStages opts.
Proof.
  intros opts out Hret Hne. subst opts out.
  pose proof (run_outcome cancelDuring hasDisplayNode inputSurface kwargs) as Hend.
  rewrite Hret in Hend. simpl in Hend.
  destruct e; [contradiction| |]; destruct Hend as (He & pd & _ & Hs & _); auto.
Qed.

(** The short run for NONMANIFOLD and SEGMENTATION returns True. *)
Lemma stages_of_a_finished_run_witness :
  stagesRun (trace (snd (run neverCancel true tetra
                             (kwShort OUTPUT_SEGMENTATION MODE_NONMANIFOLD))))
  = expectedStages (make_options (kwShort OUTPUT_SEGMENTATION MODE_NONMANIFOLD)).
Proof.
  destruct (stages_of_a_finished_run neverCancel true tetra
              (kwShort OUTPUT_SEGMENTATION MODE_NONMANIFOLD) ExitDone) as [_ Hstages].
  - vm_compute. reflexivity.
  - discriminate.
  - exact Hstages.
Defined.



(** X22. A run returns True without having committed an output in two
    cases only: the filter mode is NONMANIFOLD and the output type
    SEGMENTATION, or the user pressed Cancel (the request is then seen by the
    check inside the output helper, whose result the caller ignores). *)
Theorem true_without_output `{VTK} (cancelDuring : nat -> bool) (hasDisplayNode : bool)
    (inputSurface : PolyData) (kwargs : Kwargs) :
  let opts := make_options kwargs in
  let out := run cancelDuring hasDisplayNode inputSurface kwargs in
  fst out = Return ExitDone -> commits (trace (snd out)) = [] ->
  (filterMode opts = MODE_NONMANIFOLD /\ outputType opts = OUTPUT_SEGMENTATION) \/
  cancelPressed cancelDuring.
Proof.
  intros opts out Hret Hnil. subst opts out.
  pose proof (run_outcome cancelDuring hasDisplayNode inputSurface kwargs) as Hend.
  rewrite Hret in Hend. simpl in Hend.
  destruct Hend as (Hexit & pd & _ & _ & [Hc|[_ Hp]]); [|right; exact Hp].
  left. rewrite Hnil in Hc. symmetry in Hc. revert Hexit Hc.
  generalize (make_options kwargs). intros opts.
  unfold expectedExit, commitOf, knownOutput.
  destruct (knownMode opts); simpl; [|intros; discriminate].
  destruct (String.eqb (outputType opts) OUTPUT_SEGMENTATION) eqn:Hseg.
  - destruct (String.eqb (filterMode opts) MODE_NONMANIFOLD) eqn:Hnm;
      [|intros; discriminate].
    intros _ _. apply String.eqb_eq in Hseg, Hnm. auto.
  - destruct (String.eqb (outputType opts) OUTPUT_MODEL); intros; discriminate.
Qed.

(** The short run for NONMANIFOLD and SEGMENTATION returns True and commits
    nothing. *)
Lemma true_without_output_witness :
  (filterMode (make_options (kwShort OUTPUT_SEGMENTATION MODE_NONMANIFOLD)) = MODE_NONMANIFOLD /\
   outputType (make_options (kwShort OUTPUT_SEGMENTATION MODE_NONMANIFOLD)) = OUTPUT_SEGMENTATION)
  \/ cancelPressed neverCancel.
Proof.
  apply (true_without_output neverCancel true tetra
           (kwShort OUTPUT_SEGMENTATION MODE_NONMANIFOLD)); vm_compute; reflexivity.
Defined.

(** ** The parameters the options layout disables *)





(** ** The Apply button *)






(** ** Instances of earlier lemmas *)

(** The third axis of a mesh with bounds 0..10, 0..2.5 and 0..0. *)
Lemma remesh_dim_zero_extent_witness :
  remesh_dim [0; 10; 0; 2.5; 0; 0]%float [1; 1; 1]%float 2 = Some 1.
Proof.
  apply (remesh_dim_zero_extent [0; 10; 0; 2.5; 0; 0]%float [1; 1; 1]%float 2).
  - reflexivity.
  - vm_compute. exact I.
  - vm_compute. exact I.
Defined.

(** The isosceles triangle for a search edge length of 4.5. *)
Lemma isLargeCell_flagged_witness :
  exists pa, (pa + 1 < 3)%nat /\
    fgt (norm (vsub (GetPoint (cellPoints (Points isosceles) (triangle 0 1 2)) pa)
                    (GetPoint (cellPoints (Points isosceles) (triangle 0 1 2)) (pa + 1))))
        4.5 = true.
Proof.
  apply (isLargeCell_flagged 4.5%float (Points isosceles) (triangle 0 1 2)).
  vm_compute. reflexivity.
Defined.

(** Two opposite normals. *)
Lemma offsetVertex_zero_average_witness :
  offsetVertex 1.5%float (V3 0 0 0)%float [V3 0 0 1; V3 0 0 (-1)]%float
  = Some (V3 nan nan nan).
Proof.
  apply (offsetVertex_zero_average 1.5%float (V3 0 0 0)%float (V3 0 0 1)%float
           [V3 0 0 (-1)]%float).
  vm_compute. reflexivity.
Defined.

(** Cancel pressed while the first message is shown. *)
Lemma cancel_at_start_witness :
  fst (run cancelAtStart true tetra (kwShort OUTPUT_MODEL MODE_CONVEXHULL))
  = Return ExitCancelled.
Proof.
  destruct (cancel_at_start cancelAtStart true tetra (kwShort OUTPUT_MODEL MODE_CONVEXHULL))
    as [Hret _].
  - reflexivity.
  - vm_compute. discriminate.
  - exact Hret.
Defined.

(** The tetrahedron with the default search edge length of 20: no cell is
    large. *)
Lemma raycastStage_gate_closed_witness :
  exists w',
    raycastStage neverCancel (make_options no_kwargs) 0 1
                 (mkWorld (<[1%nat := tetra]> (<[0%nat := tetra]> ∅)) false 0 [])
    = (Continue tt, w') /\
    heap w' !! 1%nat = Some tetra.
Proof.
  apply (raycastStage_gate_closed neverCancel (make_options no_kwargs) 0 1
           (mkWorld (<[1%nat := tetra]> (<[0%nat := tetra]> ∅)) false 0 [])
           tetra [] (extractLargeCells tetra []) tetra).
  - vm_compute. reflexivity.
  - reflexivity.
  - reflexivity.
  - vm_compute. reflexivity.
  - left. reflexivity.
Defined.
